(** * spectrumfitter: a shallow embedding of [spectrum_fitter.py] and [kw.py]

    The development follows the two source files.  Numbers are IEEE binary64
    values ([spec_float] with precision 53 and maximal exponent 1024), so that
    the arithmetic of the lineshape formulas is the arithmetic numpy performs
    on [float64] arrays.  Parameter lists and lineshape objects live in a
    store, since [SpectralModel.setparams] mutates the parameter lists in
    place and [BrendelDHO.__call__] assigns an attribute of the object.
    Python exceptions are the [Raise] results of an error-and-state monad.

    The special functions the code takes from numpy and scipy (complex
    square root, [erfcx], [exp], real powers, [interp], the FFT) are not part
    of the repository; they are the fields of a [Kernel] record over which
    the definitions are parametrised. *)

From Stdlib Require Import ZArith SpecFloat String List Lia.
From stdpp Require Import gmap strings list fin_maps.

(** ** binary64 arithmetic *)

Abbreviation float := spec_float (only parsing).

Definition prec : Z := 53.
Definition emax : Z := 1024.

Definition fadd : float -> float -> float := SFadd prec emax.
Definition fsub : float -> float -> float := SFsub prec emax.
Definition fmul : float -> float -> float := SFmul prec emax.
Definition fdiv : float -> float -> float := SFdiv prec emax.
Definition fsqrt : float -> float := SFsqrt prec emax.
Definition fopp : float -> float := SFopp.
Definition fltb : float -> float -> bool := SFltb.

(** [x**2]: numpy squares an array by multiplying it with itself. *)
Definition fpow2 (x : float) : float := fmul x x.

(** A Python [int] converted to [float64] (round to nearest even). *)
Definition float_of_Z (z : Z) : float := binary_normalize prec emax z 0 false.

(** A decimal literal [n/d] of the source, rounded as Python's parser does:
    to the binary64 value nearest to the exact quotient. *)
Definition float_lit (n d : Z) : float := fdiv (float_of_Z n) (float_of_Z d).

Definition f0 : float := S754_zero false.
Definition f1 : float := float_of_Z 1.
Definition f2 : float := float_of_Z 2.
Definition fhalf : float := float_lit 5 10.
Definition f100 : float := float_of_Z 100.

Definition is_zero (x : float) : bool :=
  match x with S754_zero _ => true | _ => false end.
Definition is_nan (x : float) : bool :=
  match x with S754_nan => true | _ => false end.
Definition is_finite (x : float) : bool :=
  match x with S754_zero _ | S754_finite _ _ _ => true | _ => false end.

(** ** Python values and exceptions *)

(** The numbers whose Python type matters: [fsum] starts from the [int] 0
    and [BrendelDHO.f] is initialised with the [int] 0, while every value
    read from an array is a [numpy.float64]. *)
Inductive pynum : Type :=
  | PyInt (z : Z)
  | NpFloat (x : float).

Definition to_float (v : pynum) : float :=
  match v with PyInt z => float_of_Z z | NpFloat x => x end.

Definition py_add (a b : pynum) : pynum :=
  match a, b with
  | PyInt x, PyInt y => PyInt (x + y)
  | _, _ => NpFloat (fadd (to_float a) (to_float b))
  end.

Definition py_neg (a : pynum) : pynum :=
  match a with PyInt x => PyInt (- x) | NpFloat x => NpFloat (fopp x) end.

(** [x == s] for a number [x] and a string [s] is [False]. *)
Definition num_eq_str (x : float) (s : string) : bool := false.

Inductive exn : Type :=
  | TypeError | IndexError | NameError | ValueError | OverflowError
  | AttributeError | AssertionError | SystemError.

Inductive res (A : Type) : Type :=
  | Ok (a : A)
  | Raise (e : exn).
Arguments Ok {A} a.
Arguments Raise {A} e.

Definition rbind {A B : Type} (r : res A) (k : A -> res B) : res B :=
  match r with Ok a => k a | Raise e => Raise e end.

Definition is_ok {A : Type} (r : res A) : bool :=
  match r with Ok _ => true | Raise _ => false end.

(** [xs[i]] for a non-negative index. *)
Definition getitem {A : Type} (xs : list A) (i : nat) : res A :=
  match xs !! i with Some x => Ok x | None => Raise IndexError end.

(** [xs[-1]]. *)
Definition getlast {A : Type} (xs : list A) : res A :=
  match last xs with Some x => Ok x | None => Raise IndexError end.

(** [int(x)] for a float: truncation towards zero. *)
Definition py_int (x : float) : res Z :=
  match x with
  | S754_zero _ => Ok 0%Z
  | S754_nan => Raise ValueError
  | S754_infinity _ => Raise OverflowError
  | S754_finite s m e =>
      let a := match e with
               | Zneg k => Z.shiftr (Zpos m) (Zpos k)
               | _ => Z.shiftl (Zpos m) e
               end in
      Ok (if s then (- a)%Z else a)
  end.

(** ** numpy arrays

    One-dimensional [float64] arrays are lists of floats. *)

Abbreviation arr := (list spec_float) (only parsing).

Definition zeros (n : nat) : arr := replicate n f0.

(** An operation between two arrays: elementwise when the lengths agree,
    broadcast when one of them has a single element, [ValueError] otherwise. *)
Definition np_binop (op : float -> float -> float) (a b : arr) : res arr :=
  if decide (length a = length b) then Ok (zip_with op a b)
  else match a, b with
       | [x], _ => Ok (map (op x) b)
       | _, [y] => Ok (map (fun x => op x y) a)
       | _, _ => Raise ValueError
       end.

Definition np_add := np_binop fadd.
Definition np_sub := np_binop fsub.
Definition np_mul := np_binop fmul.
Definition np_div := np_binop fdiv.

(** [dot(a, b)] of two vectors: the sum of the products, accumulated here
    from left to right (the BLAS routine numpy calls may add them in another
    order, which changes the rounding only). *)
Definition dot (a b : arr) : res float :=
  if decide (length a = length b)
  then Ok (fold_left fadd (zip_with fmul a b) f0)
  else Raise ValueError.

(** [prod(a)]: [multiply.reduce], whose identity is 1. *)
Definition prod (a : arr) : float := fold_left fmul a f1.

(** [diff(a)]: [a[1:] - a[:-1]]. *)
Definition diff (a : arr) : arr := zip_with fsub (tail a) a.

(** Python's builtin [max] over a sequence. *)
Definition py_max (a : arr) : res float :=
  match a with
  | [] => Raise ValueError
  | x :: xs => Ok (fold_left (fun m y => if fltb m y then y else m) xs x)
  end.

(** ** Complex numbers and the numerical kernel *)

Abbreviation complex := (spec_float * spec_float)%type (only parsing).

Definition of_real (x : float) : complex := (x, f0).
Definition imag_unit : complex := (f0, f1).
Definition real (z : complex) : float := fst z.
Definition imag (z : complex) : float := snd z.

Record Kernel : Type := {
  fexp : float -> float;
  fpow : float -> float -> float;
  flog2 : float -> float;
  fceil : float -> float;
  cadd : complex -> complex -> complex;
  csub : complex -> complex -> complex;
  cmul : complex -> complex -> complex;
  cdiv : complex -> complex -> complex;
  csqrt : complex -> complex;
  erfcx : complex -> complex;
  interp : arr -> arr -> arr -> arr
}.

(** ** The store: parameter lists and lineshape objects *)

Abbreviation loc := nat (only parsing).

Inductive Class : Type :=
  | Debye | DHO | BrendelDHO | DistributionOfDebye | StretchedExp
  | PowerLawDebye | ColeCole | VanVleck | Gaussian | constant.

(** A lineshape object.  [p] refers to the list object holding the
    parameters; the other attributes are values that no code rebinds, except
    [f], which [BrendelDHO.__call__] assigns.  An attribute a class does not
    set is [None]. *)
Module Lineshape.
Record t : Type := mk {
  cls : Class;
  p : loc;
  bounds : list (float * float);
  name : string;
  pnames : option (list string);
  type : option string;
  f : option pynum;
  convfac : option float
}.
End Lineshape.

Record heap : Type := Heap {
  lists : gmap nat (list spec_float);
  objs : gmap nat Lineshape.t
}.

(** ** The monad of Python computations: state and exceptions *)

Definition M (A : Type) : Type := heap -> res A * heap.

Definition ret {A : Type} (a : A) : M A := fun h => (Ok a, h).
Definition raise {A : Type} (e : exn) : M A := fun h => (Raise e, h).
Definition lift {A : Type} (r : res A) : M A := fun h => (r, h).
Definition bind {A B : Type} (c : M A) (k : A -> M B) : M B :=
  fun h => match c h with
           | (Ok a, h') => k a h'
           | (Raise e, h') => (Raise e, h')
           end.

Notation "x <- c ;; k" := (bind c (fun x => k))
  (at level 100, c at next level, right associativity).

(** A reference that the store does not hold cannot arise in Python; the
    model answers [SystemError] there. *)
Definition get_obj (l : loc) : M Lineshape.t :=
  fun h => match objs h !! l with
           | Some o => (Ok o, h)
           | None => (Raise SystemError, h)
           end.

Definition get_list (l : loc) : M (list float) :=
  fun h => match lists h !! l with
           | Some xs => (Ok xs, h)
           | None => (Raise SystemError, h)
           end.

(** [l[j] = v] on the list object at [l]. *)
Definition set_item (l : loc) (j : nat) (v : float) : M unit :=
  fun h => match lists h !! l with
           | Some xs =>
               if decide (j < length xs)
               then (Ok tt, Heap (<[l := <[j := v]> xs]> (lists h)) (objs h))
               else (Raise IndexError, h)
           | None => (Raise SystemError, h)
           end.

(** [self.f = v] on the object at [l]. *)
Definition set_f (l : loc) (v : pynum) : M unit :=
  fun h => match objs h !! l with
           | Some o =>
               let o' := Lineshape.mk (Lineshape.cls o) (Lineshape.p o)
                           (Lineshape.bounds o) (Lineshape.name o)
                           (Lineshape.pnames o) (Lineshape.type o)
                           (Some v) (Lineshape.convfac o) in
               (Ok tt, Heap (lists h) (<[l := o']> (objs h)))
           | None => (Raise SystemError, h)
           end.

(** [self.p[i]]. *)
Definition param (o : Lineshape.t) (i : nat) : M float :=
  xs <- get_list (Lineshape.p o) ;; lift (getitem xs i).

(** [o.attr] for an attribute that the class may not have set. *)
Definition attr {A : Type} (a : option A) : M A :=
  match a with Some x => ret x | None => raise AttributeError end.

(** ** The constructors of the lineshape classes

    Each takes the parameter list (a reference), the bounds and the name,
    as [Lineshape.__init__] stores them, and sets the attributes of its
    class. *)

Definition finf : float := S754_infinity false.
Definition fninf : float := S754_infinity true.

Definition Debye_init (params : loc) (bounds : list (float * float)) (name : string) : Lineshape.t :=
  Lineshape.mk Debye params bounds name (Some ["f"; "wD"]) (Some "Debye") None None.

Definition DHO_init (params : loc) (bounds : list (float * float)) (name : string) : Lineshape.t :=
  Lineshape.mk DHO params bounds name (Some ["f"; "wT"; "gamma"]) (Some "DHO") None None.

Definition BrendelDHO_init (params : loc) (bounds : list (float * float)) (name : string) : Lineshape.t :=
  Lineshape.mk BrendelDHO params bounds name
    (Some ["wp**2/w0**2"; "wT"; "gamma"; "sigma"]) (Some "BrendelDHO") (Some (PyInt 0)) None.

Definition DistributionOfDebye_init (params : loc) (bounds : list (float * float)) (name : string) : Lineshape.t :=
  Lineshape.mk DistributionOfDebye params bounds name None None None None.

Definition StretchedExp_init (params : loc) (bounds : list (float * float)) (name : string) : Lineshape.t :=
  Lineshape.mk StretchedExp params bounds name (Some ["f"; "tau"; "beta"]) (Some "StretchedExp") None None.

Definition PowerLawDebye_init (params : loc) (bounds : list (float * float)) (name : string) : Lineshape.t :=
  Lineshape.mk PowerLawDebye params bounds name (Some ["f"; "wD"; "A"; "q"]) (Some "PowerLawDebye") None (Some f1).

Definition ColeCole_init (params : loc) (bounds : list (float * float)) (name : string) : Lineshape.t :=
  Lineshape.mk ColeCole params bounds name (Some ["f"; "wD"; "alpha"]) (Some "Debye") None None.

Definition VanVleck_init (params : loc) (bounds : list (float * float)) (name : string) : Lineshape.t :=
  Lineshape.mk VanVleck params bounds name (Some ["f"; "wT"; "gamma"]) (Some "VanVleck") None None.

Definition Gaussian_init (params : loc) (bounds : list (float * float)) (name : string) : Lineshape.t :=
  Lineshape.mk Gaussian params bounds name (Some ["f"; "wT"; "gamma"]) (Some "BRO") None None.

Definition constant_init (params : loc) (bounds : list (float * float)) (name : string) : Lineshape.t :=
  Lineshape.mk constant params bounds name (Some ["Eps float('inf')."]) (Some "Constant") None None.

(** Storing a fresh list, and a fresh object, at a location. *)
Definition new_list (l : loc) (xs : list float) (h : heap) : heap :=
  Heap (<[l := xs]> (lists h)) (objs h).
Definition new_obj (l : loc) (o : Lineshape.t) (h : heap) : heap :=
  Heap (lists h) (<[l := o]> (objs h)).
Definition empty_heap : heap := Heap ∅ ∅.

(** ** The lineshapes ([__call__] of each class) *)

Section Lineshapes.
Context (K : Kernel).

(** [Debye.__call__]:
    [rp = p[0]*p[1]**2/(p[1]**2 + w**2)], [cp = rp*w/p[1]]. *)
Definition Debye_call (o : Lineshape.t) (w : arr) : M (arr * arr) :=
  p0 <- param o 0 ;;
  p1 <- param o 1 ;;
  let rp := map (fun wi => fdiv (fmul p0 (fpow2 p1)) (fadd (fpow2 p1) (fpow2 wi))) w in
  let cp := map (fun x => fdiv x p1) (zip_with fmul rp w) in
  ret (rp, cp).

(** [DHO.__call__]:
    [denom = (p[1]**2 - w**2)**2 + w**2*p[2]**2],
    [rp = p[0]*(p[1]**2)*(p[1]**2 - w**2)/denom],
    [cp = p[0]*(p[1]**2)*p[2]*w/denom]. *)
Definition DHO_call (o : Lineshape.t) (w : arr) : M (arr * arr) :=
  p1 <- param o 1 ;;
  p2 <- param o 2 ;;
  p0 <- param o 0 ;;
  let denom wi := fadd (fpow2 (fsub (fpow2 p1) (fpow2 wi))) (fmul (fpow2 wi) (fpow2 p2)) in
  let rp := map (fun wi => fdiv (fmul (fmul p0 (fpow2 p1)) (fsub (fpow2 p1) (fpow2 wi))) (denom wi)) w in
  let cp := map (fun wi => fdiv (fmul (fmul (fmul p0 (fpow2 p1)) p2) wi) (denom wi)) w in
  ret (rp, cp).

(** [BrendelDHO.__call__].  The complex arithmetic is the kernel's; the
    method stores [eps.real[1]] in the attribute [f] before it returns. *)
Definition BrendelDHO_eps (p0 x0 g sigma : float) (w : arr) : list complex :=
  let a := map (fun wi => csqrt K (csub K (of_real (fpow2 wi))
                                     (cmul K (cmul K imag_unit (of_real g)) (of_real wi)))) w in
  let a := map (fun z => csub K (of_real (real z)) (cmul K imag_unit (of_real (imag z)))) a in
  let prefac :=
    cdiv K (cmul K (cmul K (cmul K imag_unit (of_real (fsqrt (float_lit 314149 100000))))
                      (of_real p0)) (of_real (fpow2 x0)))
           (of_real (fmul (fsqrt (float_of_Z 22)) sigma)) in
  let nj := (fopp f0, fopp f1) in
  map (fun ai =>
         cmul K (cmul K (cmul K prefac (of_real (fexp K (fopp fhalf))))
                        (cdiv K (of_real f1) ai))
                (cadd K (erfcx K (cdiv K (cmul K nj (csub K ai (of_real x0))) (of_real sigma)))
                        (erfcx K (cdiv K (cmul K nj (cadd K ai (of_real x0))) (of_real sigma)))))
      a.

Definition BrendelDHO_call (l : loc) (o : Lineshape.t) (w : arr) : M (arr * arr) :=
  sigma <- param o 3 ;;
  x0 <- param o 1 ;;
  g <- param o 2 ;;
  p0 <- param o 0 ;;
  let eps := BrendelDHO_eps p0 x0 g sigma w in
  e1 <- lift (getitem (map real eps) 1) ;;
  _ <- set_f l (NpFloat e1) ;;
  ret (map real eps, map imag eps).

(** [StretchedExp.calc_eps].  The module imports [numpy] by
    [from numpy import *], which binds the module [fft] and no name [ifft]:
    the line that calls [ifft] raises [NameError]. *)
Definition StretchedExp_calc_eps (o : Lineshape.t) (w : arr) : M (arr * list complex) :=
  deltaeps <- param o 0 ;;
  tau <- param o 1 ;;
  beta <- param o 2 ;;
  mw <- lift (py_max w) ;;
  let timestep := fdiv f1 (fmul (fmul f2 (float_lit 3141 1000)) mw) in
  let maxt := fmul (float_of_Z 3) tau in
  npts <- lift (py_int (fdiv maxt timestep)) ;;
  let range_npts := map (fun i => float_of_Z (Z.of_nat i)) (seq 0 (Z.to_nat npts)) in
  let times := map (fun x => fmul x timestep) range_npts in
  let corr_fun := map (fun t => fexp K (fopp (fpow K (fdiv t tau) beta))) times in
  nextpow2 <- lift (py_int (fpow K f2 (fceil K (flog2 K (float_of_Z npts))))) ;;
  let f := map (fun x => fdiv (fmul (fdiv f1 (fmul (float_lit 299 100) (float_lit 1 100))) x)
                              (fmul timestep (float_of_Z nextpow2))) range_npts in
  let tderiv := map (fun x => fdiv x timestep) (map fopp (diff corr_fun)) in
  ifft_result <- (raise NameError : M (list complex)) ;;
  let eps_omega := map (fun z => cmul K (of_real deltaeps) z) ifft_result in
  ret (f, firstn (Z.to_nat npts) eps_omega).

Definition StretchedExp_call (o : Lineshape.t) (w : arr) : M (arr * arr) :=
  fe <- StretchedExp_calc_eps o w ;;
  let rp := interp K w (fst fe) (map real (snd fe)) in
  let cp := interp K w (fst fe) (map imag (snd fe)) in
  ret (rp, cp).

(** [PowerLawDebye.__call__]. *)
Definition PowerLawDebye_call (o : Lineshape.t) (w : arr) : M (arr * arr) :=
  A <- param o 2 ;;
  q <- param o 3 ;;
  cf <- attr (Lineshape.convfac o) ;;
  p1 <- param o 1 ;;
  let tau := fdiv cf p1 in
  let numomegas := length w in
  let start := numomegas - length (filter (fun wi => fltb p1 wi = true) w) in
  let HighFreqOmegas := w in
  let TheWing := map (fun wi => fadd f1 (fmul A (fpow K (fmul wi tau) q))) HighFreqOmegas in
  p0 <- param o 0 ;;
  let rp := zip_with (fun tw wi => fdiv (fmul tw p0) (fadd f1 (fpow2 (fmul tau wi)))) TheWing w in
  let cp := zip_with (fun tw wi => fdiv (fmul (fmul (fmul tw p0) wi) tau) (fadd f1 (fpow2 (fmul tau wi)))) TheWing w in
  ret (rp, cp).

(** [ColeCole.__call__]: the two lines of [Debye.__call__]. *)
Definition ColeCole_call (o : Lineshape.t) (w : arr) : M (arr * arr) :=
  p0 <- param o 0 ;;
  p1 <- param o 1 ;;
  let rp := map (fun wi => fdiv (fmul p0 (fpow2 p1)) (fadd (fpow2 p1) (fpow2 wi))) w in
  let cp := map (fun x => fdiv x p1) (zip_with fmul rp w) in
  ret (rp, cp).

(** The sum of the two Lorentzians that [VanVleck] and [Gaussian] share:
    [1/((p[1] - w)**2 + p[2]**2) + 1.00/((p[1] + w)**2 + p[2]**2)]. *)
Definition lorentz_pair (p1 p2 : float) (w : arr) : arr :=
  map (fun wi => fadd (fdiv f1 (fadd (fpow2 (fsub p1 wi)) (fpow2 p2)))
                      (fdiv f1 (fadd (fpow2 (fadd p1 wi)) (fpow2 p2)))) w.

(** Calling a number: [x(args)] raises [TypeError] once [x] and the
    arguments have been evaluated. *)
Definition call_number {A : Type} (x : float) (args : arr) : M A := raise TypeError.

(** [VanVleck.__call__].  In the line of [rp] no operator stands between
    [(p[1]**2 + p[2]**2)] and the parenthesis that follows it, so the number
    is called with the Lorentzian sum as its argument. *)
Definition VanVleck_call (o : Lineshape.t) (w : arr) : M (arr * arr) :=
  p0 <- param o 0 ;;
  p1 <- param o 1 ;;
  p2 <- param o 2 ;;
  called <- call_number (fadd (fpow2 p1) (fpow2 p2)) (lorentz_pair p1 p2 w) ;;
  let rp := map (fun c => fmul (fmul fhalf p0) c) called in
  let cp := zip_with (fun wi lp => fmul (fmul (fmul (fmul fhalf p0) p2) wi) lp) w (lorentz_pair p1 p2 w) in
  ret (rp, cp).

(** [Gaussian.__call__]: the same two lines. *)
Definition Gaussian_call (o : Lineshape.t) (w : arr) : M (arr * arr) :=
  p0 <- param o 0 ;;
  p1 <- param o 1 ;;
  p2 <- param o 2 ;;
  called <- call_number (fadd (fpow2 p1) (fpow2 p2)) (lorentz_pair p1 p2 w) ;;
  let rp := map (fun c => fmul (fmul fhalf p0) c) called in
  let cp := zip_with (fun wi lp => fmul (fmul (fmul (fmul fhalf p0) p2) wi) lp) w (lorentz_pair p1 p2 w) in
  ret (rp, cp).

(** [constant.__call__]: [rp = 0*w + p[0]], [cp = 0*w]. *)
Definition constant_call (o : Lineshape.t) (w : arr) : M (arr * arr) :=
  p0 <- param o 0 ;;
  let rp := map (fun wi => fadd (fmul f0 wi) p0) w in
  let cp := map (fun wi => fmul f0 wi) w in
  ret (rp, cp).

(** [lineshape(w)] for the object at [l]: the method of its class.
    [DistributionOfDebye] defines no [__call__]. *)
Definition call (l : loc) (w : arr) : M (arr * arr) :=
  o <- get_obj l ;;
  match Lineshape.cls o with
  | Debye => Debye_call o w
  | DHO => DHO_call o w
  | BrendelDHO => BrendelDHO_call l o w
  | DistributionOfDebye => raise TypeError
  | StretchedExp => StretchedExp_call o w
  | PowerLawDebye => PowerLawDebye_call o w
  | ColeCole => ColeCole_call o w
  | VanVleck => VanVleck_call o w
  | Gaussian => Gaussian_call o w
  | constant => constant_call o w
  end.

End Lineshapes.

(** ** [SpectralModel] *)

(** A model is a list of references to lineshape objects and a counter.
    [add] rebinds [self.lineshapes] to a new list, so the model is passed
    by value. *)
Record SpectralModel : Type := {
  lineshapes : list loc;
  numlineshapes : nat;
  RMS_error : pynum
}.

(** [SpectralModel.__init__]. *)
Definition SpectralModel_init (ls : list loc) : SpectralModel :=
  {| lineshapes := ls; numlineshapes := 0; RMS_error := PyInt 0 |}.

(** [SpectralModel()]: the default argument is the empty list, which no
    method mutates ([add] rebinds the attribute to a new list). *)
Definition SpectralModel_new : SpectralModel := SpectralModel_init [].

(** [SpectralModel.add]. *)
Definition add (self : SpectralModel) (lineshape : loc) : SpectralModel :=
  {| lineshapes := lineshapes self ++ [lineshape];
     numlineshapes := numlineshapes self + 1;
     RMS_error := RMS_error self |}.

(** The inner loop of [setparams]: [for j in range(n): l.p[j] = params[i];
    i += 1], started at [j] with [n - j] rounds left.  It returns the
    counter [i]. *)
Fixpoint setparams_inner (pl : loc) (params : arr) (rounds j i : nat) : M nat :=
  match rounds with
  | 0 => ret i
  | S rounds' =>
      v <- lift (getitem params i) ;;
      _ <- set_item pl j v ;;
      setparams_inner pl params rounds' (S j) (S i)
  end.

(** The outer loop of [setparams] over the lineshapes. *)
Fixpoint setparams_loop (ls : list loc) (params : arr) (i : nat) : M nat :=
  match ls with
  | [] => ret i
  | l :: ls' =>
      o <- get_obj l ;;
      xs <- get_list (Lineshape.p o) ;;
      i' <- setparams_inner (Lineshape.p o) params (length xs) 0 i ;;
      setparams_loop ls' params i'
  end.

(** [SpectralModel.setparams]. *)
Definition setparams (self : SpectralModel) (params : arr) : M unit :=
  _ <- setparams_loop (lineshapes self) params 0 ;; ret tt.

(** The loop of [getparams]: [params = params + lineshape.p]. *)
Fixpoint getparams_loop (ls : list loc) (params : arr) : M arr :=
  match ls with
  | [] => ret params
  | l :: ls' =>
      o <- get_obj l ;;
      xs <- get_list (Lineshape.p o) ;;
      getparams_loop ls' (params ++ xs)
  end.

(** [SpectralModel.getparams]. *)
Definition getparams (self : SpectralModel) : M arr :=
  getparams_loop (lineshapes self) [].

(** [SpectralModel.getbounds]. *)
Fixpoint getbounds_loop (ls : list loc) (bounds : list (float * float)) : M (list (float * float)) :=
  match ls with
  | [] => ret bounds
  | l :: ls' =>
      o <- get_obj l ;;
      getbounds_loop ls' (bounds ++ Lineshape.bounds o)
  end.

Definition getbounds (self : SpectralModel) : M (list (float * float)) :=
  getbounds_loop (lineshapes self) [].

(** A [for i in range(n)] loop over an accumulator. *)
Fixpoint for_range {A : Type} (body : nat -> A -> M A) (rounds i : nat) (acc : A) : M A :=
  match rounds with
  | 0 => ret acc
  | S rounds' => acc' <- body i acc ;; for_range body rounds' (S i) acc'
  end.

(** [self.lineshapes[i]]. *)
Definition lineshape_at (self : SpectralModel) (i : nat) : M Lineshape.t :=
  l <- lift (getitem (lineshapes self) i) ;; get_obj l.

(** [SpectralModel.getfreqs] (the [print(i)] of its loop writes to the
    standard output only). *)
Definition getfreqs (self : SpectralModel) : M arr :=
  for_range (fun i freqs =>
               o <- lineshape_at self i ;;
               p1 <- param o 1 ;;
               ret (<[i := p1]> freqs))
            (numlineshapes self) 0 (zeros (numlineshapes self)).

(** [SpectralModel.fsum]. *)
Definition fsum (self : SpectralModel) : M pynum :=
  for_range (fun i fsum =>
               o <- lineshape_at self i ;;
               p0 <- param o 0 ;;
               if num_eq_str p0 "BrendelDHO"
               then (o' <- lineshape_at self i ;;
                     f <- attr (Lineshape.f o') ;;
                     ret (py_add fsum f))
               else (o' <- lineshape_at self i ;;
                     p0' <- param o' 0 ;;
                     ret (py_add fsum (NpFloat p0'))))
            (numlineshapes self) 0 (PyInt 0).

Section Model.
Context (K : Kernel).

(** The loop of [SpectralModel.__call__]. *)
Fixpoint call_loop (ls : list loc) (w rp cp : arr) : M (arr * arr) :=
  match ls with
  | [] => ret (rp, cp)
  | l :: ls' =>
      parts <- call K l w ;;
      rp' <- lift (np_add rp (fst parts)) ;;
      cp' <- lift (np_add cp (snd parts)) ;;
      call_loop ls' w rp' cp'
  end.

(** [SpectralModel.__call__]. *)
Definition SpectralModel_call (self : SpectralModel) (w : arr) : M (arr * arr) :=
  call_loop (lineshapes self) w (zeros (length w)) (zeros (length w)).

(** ** [fit_model]: the two closures handed to the optimizer *)

(** [diffsq] of [fit_model]. *)
Definition fit_model_diffsq (self : SpectralModel) (dataX datarp datacp params : arr) : M float :=
  _ <- setparams self params ;;
  rc <- SpectralModel_call self dataX ;;
  d <- lift (np_sub datarp (fst rc)) ;;
  diffrp <- lift (np_div d datarp) ;;
  d <- lift (np_sub datacp (snd rc)) ;;
  diffcp <- lift (np_div d datacp) ;;
  c <- lift (dot diffcp diffcp) ;;
  r <- lift (dot diffrp diffrp) ;;
  ret (fadd c r).

(** [costfun] of [fit_model]. *)
Definition fit_model_costfun (self : SpectralModel) (dataX datarp datacp params : arr) : M float :=
  Error <- fit_model_diffsq self dataX datarp datacp params ;;
  d0 <- lift (getitem datarp 0) ;;
  s <- fsum self ;;
  d0' <- lift (getitem datarp 0) ;;
  let fsumpenalty := fdiv (fsub d0 (to_float s)) d0' in
  ret (fadd Error (fmul f100 (fpow2 fsumpenalty))).

(** ** [gLST_LHS] *)

Definition type_is (o : Lineshape.t) (s : string) : M bool :=
  t <- attr (Lineshape.type o) ;; ret (String.eqb t s).

(** The body of the loop of [gLST_LHS] at index [i]. *)
Definition gLST_body (modelL modelT : SpectralModel) (i : nat) (ratios : arr) : M arr :=
  oL <- lineshape_at modelL i ;;
  isD <- type_is oL "Debye" ;;
  ratios <- (if isD
             then (l1 <- param oL 1 ;;
                   oT <- lineshape_at modelT i ;;
                   t1 <- param oT 1 ;;
                   ret (<[i := fdiv l1 t1]> ratios))
             else ret ratios) ;;
  isDHO <- type_is oL "DHO" ;;
  isVV <- (if isDHO then ret true else type_is oL "VanVleck") ;;
  isB <- (if isVV then ret true else type_is oL "BrendelDHO") ;;
  if isB
  then (l1 <- param oL 1 ;;
        l2 <- param oL 2 ;;
        oT <- lineshape_at modelT i ;;
        t1 <- param oT 1 ;;
        ret (<[i := fdiv (fadd (fpow2 l1) (fpow2 l2)) (fpow2 t1)]> ratios))
  else ret ratios.

(** The array [ratios] of [gLST_LHS] after its loop. *)
Definition gLST_ratios (modelL modelT : SpectralModel) : M arr :=
  for_range (gLST_body modelL modelT) (numlineshapes modelL) 0 (zeros (numlineshapes modelL)).

(** [gLST_LHS(modelL, modelT)] with [print_ratios=False]: the array is
    allocated, the counters are asserted equal, the loop runs and the
    product of the array is returned. *)
Definition gLST_LHS (modelL modelT : SpectralModel) : M float :=
  if decide (numlineshapes modelL = numlineshapes modelT)
  then (ratios <- gLST_ratios modelL modelT ;; ret (prod ratios))
  else raise AssertionError.

(** ** [fit_model_gLST_constraint] *)

(** The longitudinal data computed on entry:
    [Tdatarp/(Tdatarp**2 + Tdatacp**2)] and [Tdatacp/(Tdatarp**2 + Tdatacp**2)]. *)
Definition Ldata (Tdatarp Tdatacp : arr) : res (arr * arr) :=
  rbind (np_add (map fpow2 Tdatarp) (map fpow2 Tdatacp)) (fun den =>
  rbind (np_div Tdatarp den) (fun Ldatarp =>
  rbind (np_add (map fpow2 Tdatarp) (map fpow2 Tdatacp)) (fun den' =>
  rbind (np_div Tdatacp den') (fun Ldatacp =>
  Ok (Ldatarp, Ldatacp))))).

(** [diffsq] of [fit_model_gLST_constraint]. *)
Definition gLST_diffsq (modelL modelT : SpectralModel)
    (dataX Tdatarp Tdatacp Ldatarp Ldatacp paramsL paramsT : arr) : M float :=
  _ <- setparams modelL paramsL ;;
  _ <- setparams modelT paramsT ;;
  L <- SpectralModel_call modelL dataX ;;
  T <- SpectralModel_call modelT dataX ;;
  a <- lift (rbind (np_sub Ldatarp (fst L)) (fun d => np_div d Ldatarp)) ;;
  b <- lift (rbind (np_sub Ldatacp (snd L)) (fun d => np_div d Ldatacp)) ;;
  Ldiff <- lift (np_add a b) ;;
  a <- lift (rbind (np_sub Tdatarp (fst T)) (fun d => np_div d Tdatarp)) ;;
  b <- lift (rbind (np_sub Tdatacp (snd T)) (fun d => np_div d Tdatacp)) ;;
  Tdiff <- lift (np_add a b) ;;
  t <- lift (dot Tdiff Tdiff) ;;
  l <- lift (dot Ldiff Ldiff) ;;
  ret (fadd t l).

(** The two penalties that [costfun] of [fit_model_gLST_constraint]
    computes before it returns. *)
Definition gLST_penalties (modelL modelT : SpectralModel) (Tdatarp : arr) : M (float * float) :=
  eps0 <- lift (getitem Tdatarp 0) ;;
  eps_inf <- lift (getlast Tdatarp) ;;
  s <- fsum modelT ;;
  d0 <- lift (getitem Tdatarp 0) ;;
  let fsumpenalty := fpow2 (fdiv (to_float (py_neg s)) d0) in
  let gLST_RHS := fdiv eps0 eps_inf in
  lhs <- gLST_LHS modelL modelT ;;
  let gLSTpenalty := fpow2 (fsub lhs gLST_RHS) in
  ret (fsumpenalty, gLSTpenalty).

(** [costfun] of [fit_model_gLST_constraint]: the value returned is
    [diffsq(paramsL, paramsT)]; the sum with the penalties stands in a
    comment of the source. *)
Definition gLST_costfun (modelL modelT : SpectralModel)
    (dataX Tdatarp Tdatacp Ldatarp Ldatacp params : arr) : M float :=
  let paramsL := firstn (length params / 2) params in
  let paramsT := skipn (length params / 2) params in
  penalties <- gLST_penalties modelL modelT Tdatarp ;;
  gLST_diffsq modelL modelT dataX Tdatarp Tdatacp Ldatarp Ldatacp paramsL paramsT.

End Model.

(** ** [kw.py]: the susceptibility script

    The script reads two data files and fills [chikw].  The functions it
    takes from numpy ([fft.ifft], [mean], the cast to [complex64], the
    product with a [float32] array, [int(2**ceil(log2(n)))]) are the fields
    of [Kw.Numpy]. *)

Module Kw.

Record Numpy : Type := {
  ifft : arr -> nat -> list complex;
  mean : list complex -> complex;
  to_complex64 : complex -> complex;
  mul32 : float -> float -> float;
  nextpow2_of : nat -> nat
}.

Definition num_points : nat := 1000.

(** [y[a:b]]. *)
Definition slice {A : Type} (y : list A) (a b : nat) : list A :=
  firstn (b - a) (skipn a y).

Section Script.
Context (N : Numpy).

(** The block [y[(i-1)*num_avg_over : i*num_avg_over]] averaged. *)
Definition block_mean (y : list complex) (num_avg_over i : nat) : complex :=
  mean N (slice y ((i - 1) * num_avg_over) (i * num_avg_over)).

(** [for i in xrange(1,num_points-1): temp[i-1] = mean(y[...])]. *)
Definition block_average (y : list complex) (num_avg_over : nat) (temp : list complex) : list complex :=
  fold_left (fun temp i => <[i - 1 := to_complex64 N (block_mean y num_avg_over i)]> temp)
            (seq 1 (num_points - 1 - 1)) temp.

(** The first lines of a round of the loop over [k]: [tderiv], [y] and the
    block averages written into [temp]. *)
Definition next_temp (corr : arr) (timestep : float) (nextpow2 num_avg_over : nat)
    (temp : list complex) : list complex :=
  let tderiv := map (fun x => fdiv x timestep) (diff corr) in
  let y := ifft N tderiv nextpow2 in
  block_average y num_avg_over temp.

(** [-chik0[k]*imag(temp)]. *)
Definition column_of (chik0_k : float) (temp : list complex) : arr :=
  map (fun t => mul32 N (fopp chik0_k) (imag t)) temp.

(** The loop [for k in range(Nk)] over the columns of [corr_funs]; the
    array [temp] is allocated once, before the loop. *)
Fixpoint k_loop (corr_funs : list arr) (k : nat) (chik0 : arr) (timestep : float)
    (nextpow2 num_avg_over : nat) (temp : list complex) (chikw : list arr) : res (list arr) :=
  match corr_funs with
  | [] => Ok chikw
  | corr :: rest =>
      let temp' := next_temp corr timestep nextpow2 num_avg_over temp in
      rbind (getitem chik0 k) (fun c =>
        k_loop rest (S k) chik0 timestep nextpow2 num_avg_over temp'
               (chikw ++ [column_of c temp']))
  end.

(** The script from the loaded data to [chikw], as the list of its columns:
    [times_ps] is the first column of the first file, [corr_funs] its other
    columns, [chik0] the second column of the second file. *)
Definition chikw (times_ps : arr) (corr_funs : list arr) (chik0 : arr) : res (list arr) :=
  let ntimesteps := length times_ps in
  rbind (getitem times_ps 1) (fun t1 =>
  rbind (getitem times_ps 0) (fun t0 =>
    let timestep := fsub t1 t0 in
    let temp := replicate num_points (f0, f0) in
    let num_avg_over := ntimesteps / num_points in
    let nextpow2 := nextpow2_of N ntimesteps in
    k_loop corr_funs 0 chik0 timestep nextpow2 num_avg_over temp [])).

(** What the claim describes for row [j] of column [k]: minus [chik0[k]]
    times the imaginary part of the average of block [j] of the inverse FFT
    of the time derivative. *)
Definition chikw_spec_entry (corr : arr) (timestep chik0_k : float) (nextpow2 num_avg_over j : nat) : float :=
  let tderiv := map (fun x => fdiv x timestep) (diff corr) in
  let y := ifft N tderiv nextpow2 in
  mul32 N (fopp chik0_k) (imag (to_complex64 N (block_mean y num_avg_over (S j)))).

End Script.

(** The numpy functions on the arguments of the smallest data file, two
    rows: [num_avg_over] is 0 there, every block is the empty slice, whose
    [mean] is NaN, and the products have exact float32 operands.  On other
    arguments the fields are stand-ins. *)
Definition two_row_numpy : Numpy :=
  {| ifft := fun x n => replicate n (S754_nan, S754_nan);
     mean := fun zs => match zs with
                       | [] => (S754_nan, S754_nan)
                       | z :: _ => z
                       end;
     to_complex64 := fun z => z;
     mul32 := fmul;
     nextpow2_of := fun n => n |}.

End Kw.

(** ** Further methods of [SpectralModel] *)

Section ModelMethods.
Context (K : Kernel).

(** [SpectralModel.longeps]: [denom = rp**2 + cp**2], and the pair
    [(rp/denom, cp/denom)]. *)
Definition longeps (self : SpectralModel) (w : arr) : M (arr * arr) :=
  rc <- SpectralModel_call K self w ;;
  denom <- lift (np_add (map fpow2 (fst rc)) (map fpow2 (snd rc))) ;;
  a <- lift (np_div (fst rc) denom) ;;
  b <- lift (np_div (snd rc) denom) ;;
  ret (a, b).

(** A run of [optimize.differential_evolution(costfun, bounds)], which is
    not part of the repository: the optimizer acts on the program through
    its calls of [costfun] only, and its result is not used, so a run is
    the sequence [evals] of the parameter vectors it evaluates.  An
    exception raised by [costfun] ends the run. *)
Fixpoint differential_evolution (costfun : arr -> M float) (evals : list arr) : M unit :=
  match evals with
  | [] => ret tt
  | x :: rest => _ <- costfun x ;; differential_evolution costfun rest
  end.

(** [SpectralModel.fit_model]: the parameters and the bounds are read, the
    optimizer runs, the parameters are read again and [RMS_error] is set to
    [sqrt(diffsq(params)/(2*len(dataX)))].  The method returns nothing; the
    model with its new attribute is the result here. *)
Definition fit_model (self : SpectralModel) (dataX datarp datacp : arr) (evals : list arr) : M SpectralModel :=
  params <- getparams self ;;
  bounds <- getbounds self ;;
  _ <- differential_evolution (fit_model_costfun K self dataX datarp datacp) evals ;;
  params <- getparams self ;;
  d <- fit_model_diffsq K self dataX datarp datacp params ;;
  ret {| lineshapes := lineshapes self;
         numlineshapes := numlineshapes self;
         RMS_error := NpFloat (fsqrt (fdiv d (float_of_Z (2 * Z.of_nat (length dataX))))) |}.

End ModelMethods.

(** ** [kw.py]: the frequency axis

    [f = array(range(0,ntimesteps,1))/(timestep*nextpow2)], the loop that
    averages it over blocks into [freqs], and [freqs_cm = 33.44*freqs].
    [mean] of a real slice is numpy's. *)

Module KwFreqs.
Section Script.
Context (mean : arr -> float).

Definition f_axis (ntimesteps : nat) (timestep : float) (nextpow2 : nat) : arr :=
  map (fun i => fdiv (float_of_Z (Z.of_nat i)) (fmul timestep (float_of_Z (Z.of_nat nextpow2))))
      (seq 0 ntimesteps).

(** [for i in xrange(1,num_points-1): freqs[i-1] = mean(f[(i-1)*num_avg_over : i*num_avg_over])]. *)
Definition freqs_loop (f : arr) (num_avg_over : nat) (freqs : arr) : arr :=
  fold_left (fun freqs i =>
               <[i - 1 := mean (Kw.slice f ((i - 1) * num_avg_over) (i * num_avg_over))]> freqs)
            (seq 1 (Kw.num_points - 1 - 1)) freqs.

(** [freqs_cm] from the number of rows, the time step and [nextpow2]. *)
Definition freqs_cm (ntimesteps : nat) (timestep : float) (nextpow2 : nat) : arr :=
  let num_avg_over := ntimesteps / Kw.num_points in
  let f := f_axis ntimesteps timestep nextpow2 in
  let freqs := freqs_loop f num_avg_over (zeros Kw.num_points) in
  map (fun x => fmul (float_lit 3344 100) x) freqs.

End Script.
End KwFreqs.

(** ** Concrete inputs of the examples *)

(** A kernel whose functions answer NaN (and the empty array).  The examples
    that name it run over [Debye], [ColeCole], [VanVleck] and [constant]
    lineshapes, whose methods call no function of the kernel. *)
Definition nan_kernel : Kernel :=
  {| fexp := fun _ => S754_nan;
     fpow := fun _ _ => S754_nan;
     flog2 := fun _ => S754_nan;
     fceil := fun _ => S754_nan;
     cadd := fun _ _ => (S754_nan, S754_nan);
     csub := fun _ _ => (S754_nan, S754_nan);
     cmul := fun _ _ => (S754_nan, S754_nan);
     cdiv := fun _ _ => (S754_nan, S754_nan);
     csqrt := fun _ => (S754_nan, S754_nan);
     erfcx := fun _ => (S754_nan, S754_nan);
     interp := fun _ _ _ => [] |}.

(** The default bounds of [Debye], [VanVleck] and others, and of [BrendelDHO]. *)
Definition unbounded2 : list (spec_float * spec_float) := [(fninf, finf); (fninf, finf)].
Definition positive4 : list (spec_float * spec_float) := [(f0, finf); (f0, finf); (f0, finf); (f0, finf)].

(** One lineshape object at location 0 whose parameter list, at location 0
    of the lists, holds [params]. *)
Definition one_lineshape (o : Lineshape.t) (params : list spec_float) : heap :=
  new_obj 0 o (new_list 0 params empty_heap).

(** [VanVleck()] with its default parameters [1, 1, 1]. *)
Definition VanVleck_store : heap :=
  one_lineshape (VanVleck_init 0 unbounded2 "VanVleck") [f1; f1; f1].

(** [Gaussian()] with its default parameters [1, 1, 1]. *)
Definition Gaussian_store : heap :=
  one_lineshape (Gaussian_init 0 unbounded2 "Gaussian") [f1; f1; f1].

(** [ColeCole(params=[1, 1, 0.5])]. *)
Definition ColeCole_store : heap :=
  one_lineshape (ColeCole_init 0 [(f0, finf); (f0, finf); (f0, f2)] "unnamed") [f1; f1; fhalf].

(** [BrendelDHO()] with its default parameters [1, 1, 1, 1]. *)
Definition BrendelDHO_store : heap :=
  one_lineshape (BrendelDHO_init 0 positive4 "BrendelDHO") [f1; f1; f1; f1].

(** Two [Debye] objects that hold one and the same list object [1, 1] as
    their [p]: two objects built from one list, or two [Debye()] built with
    the default [params], which is one list object. *)
Definition two_Debye_shared : heap :=
  new_obj 1 (Debye_init 0 unbounded2 "Debye")
    (new_obj 0 (Debye_init 0 unbounded2 "Debye") (new_list 0 [f1; f1] empty_heap)).

(** Two [Debye] objects, each built with a list [1, 1] of its own. *)
Definition two_Debye_distinct : heap :=
  new_obj 1 (Debye_init 1 unbounded2 "Debye")
    (new_obj 0 (Debye_init 0 unbounded2 "Debye")
       (new_list 1 [f1; f1] (new_list 0 [f1; f1] empty_heap))).

(** [m = SpectralModel(); m.add(o0); m.add(o1)] for the objects at 0 and 1. *)
Definition two_lineshapes : SpectralModel := add (add SpectralModel_new 0) 1.

Definition f3 : spec_float := float_of_Z 3.
Definition f4 : spec_float := float_of_Z 4.

(** A [Debye] lineshape with parameters [1, 1] at 0 and a [constant] with
    parameter [1] at 1. *)
Definition Debye_constant_store : heap :=
  new_obj 1 (constant_init 1 [(f0, float_of_Z 10000)] "Eps float('inf')")
    (new_obj 0 (Debye_init 0 unbounded2 "Debye")
       (new_list 1 [f1] (new_list 0 [f1; f1] empty_heap))).

(** One [Debye] lineshape with parameters [1, 1]. *)
Definition one_Debye : heap :=
  one_lineshape (Debye_init 0 unbounded2 "Debye") [f1; f1].

(** One [constant] lineshape with parameter [1]. *)
Definition one_constant : heap :=
  one_lineshape (constant_init 0 [(f0, float_of_Z 10000)] "Eps float('inf')") [f1].

(** The lineshapes of a longitudinal and of a transverse model: a [Debye]
    with parameters [1, 1] at 0 and a [constant] [1] at 1 for the first, a
    [Debye] with parameters [1, 0] at 2 and a [constant] [1] at 3 for the
    second. *)
Definition LT_store : heap :=
  new_obj 3 (constant_init 3 [(f0, float_of_Z 10000)] "Eps float('inf')")
    (new_obj 2 (Debye_init 2 unbounded2 "Debye")
       (new_list 3 [f1] (new_list 2 [f1; f0] Debye_constant_store))).

Definition LT_modelL : SpectralModel := add (add SpectralModel_new 0) 1.
Definition LT_modelT : SpectralModel := add (add SpectralModel_new 2) 3.

(** A longitudinal [Debye] with parameters [1, 2] at 0 and a transverse
    [Debye] with parameters [1, 1] at 1, each with a list of its own. *)
Definition Debye_LT_store : heap :=
  new_obj 1 (Debye_init 1 unbounded2 "Debye")
    (new_obj 0 (Debye_init 0 unbounded2 "Debye")
       (new_list 1 [f1; f1] (new_list 0 [f1; f2] empty_heap))).

(** A longitudinal [constant] with parameter [1] at 0 and a transverse
    [constant] with parameter [2] at 1. *)
Definition constant_LT_store : heap :=
  new_obj 1 (constant_init 1 [(f0, float_of_Z 10000)] "Eps float('inf')")
    (new_obj 0 (constant_init 0 [(f0, float_of_Z 10000)] "Eps float('inf')")
       (new_list 1 [f2] (new_list 0 [f1] empty_heap))).

(** [m = SpectralModel(); m.add(o)] for the object at 0, and at 1. *)
Definition model_of_0 : SpectralModel := add SpectralModel_new 0.
Definition model_of_1 : SpectralModel := add SpectralModel_new 1.

Definition f50 : spec_float := float_of_Z 50.

(** * Properties *)

(** ** The monad and the store *)

Ltac unfold_monad := unfold bind, ret, raise, lift, attr in *.

Lemma heap_eta (h : heap) : Heap (lists h) (objs h) = h.
Proof. by destruct h. Qed.

Lemma bind_ok {A B : Type} (c : M A) (k : A -> M B) (h h' : heap) (a : A) :
  c h = (Ok a, h') -> bind c k h = k a h'.
Proof. intros E. unfold bind. by rewrite E. Qed.

Lemma bind_raise {A B : Type} (c : M A) (k : A -> M B) (h h' : heap) (e : exn) :
  c h = (Raise e, h') -> bind c k h = (Raise e, h').
Proof. intros E. unfold bind. by rewrite E. Qed.

(** A computation that returns went through its first step. *)
Lemma bind_inv {A B : Type} (c : M A) (k : A -> M B) (h h2 : heap) (b : B) :
  bind c k h = (Ok b, h2) ->
  exists a h1, c h = (Ok a, h1) /\ k a h1 = (Ok b, h2).
Proof.
  unfold bind. destruct (c h) as [[a|e] h1]; intros E; [eauto | discriminate].
Qed.

Lemma param_unfold (o : Lineshape.t) (i : nat) (h : heap) :
  param o i h =
  match lists h !! Lineshape.p o with
  | Some xs => (getitem xs i, h)
  | None => (Raise SystemError, h)
  end.
Proof.
  unfold param, bind, get_list, lift.
  destruct (lists h !! Lineshape.p o); [by destruct (getitem _ _) | done].
Qed.

Lemma bind_param {B : Type} (o : Lineshape.t) (i : nat) (k : spec_float -> M B) (h : heap) :
  bind (param o i) k h =
  match lists h !! Lineshape.p o with
  | Some xs => match xs !! i with
               | Some x => k x h
               | None => (Raise IndexError, h)
               end
  | None => (Raise SystemError, h)
  end.
Proof.
  unfold bind. rewrite param_unfold. unfold getitem.
  destruct (lists h !! Lineshape.p o) as [xs|]; [|done]. by destruct (xs !! i).
Qed.

Lemma param_heap (o : Lineshape.t) (i : nat) (h : heap) : snd (param o i h) = h.
Proof. rewrite param_unfold. by destruct (lists h !! Lineshape.p o). Qed.

Lemma param_some (o : Lineshape.t) (i : nat) (h : heap) (xs : list spec_float) (x : spec_float) :
  lists h !! Lineshape.p o = Some xs -> xs !! i = Some x -> param o i h = (Ok x, h).
Proof. intros E1 E2. rewrite param_unfold, E1. unfold getitem. by rewrite E2. Qed.

Lemma param_inv (o : Lineshape.t) (i : nat) (h h' : heap) (x : spec_float) :
  param o i h = (Ok x, h') ->
  h' = h /\ exists xs, lists h !! Lineshape.p o = Some xs /\ xs !! i = Some x.
Proof.
  rewrite param_unfold. destruct (lists h !! Lineshape.p o) as [xs|]; [|discriminate].
  unfold getitem. destruct (xs !! i) eqn:E; intros [= <- <-]. eauto.
Qed.

(** ** C9: the counter of a model *)

Lemma fold_add_spec (adds : list nat) (m : SpectralModel) :
  lineshapes (fold_left add adds m) = lineshapes m ++ adds /\
  numlineshapes (fold_left add adds m) = numlineshapes m + length adds.
Proof.
  revert m. induction adds as [|l adds IH]; intros m; simpl.
  - rewrite app_nil_r. split; [done | lia].
  - destruct (IH (add m l)) as [E1 E2]. rewrite E1, E2. simpl.
    rewrite <- app_assoc. split; [done | lia].
Qed.

(** C9. A model built by the constructor without argument and changed only
    by [add] has [numlineshapes = len(lineshapes)], each [add] appending its
    lineshape and adding one to the counter; the constructor given a list
    sets the counter to 0 whatever the list, so the counter differs from
    the length of a non-empty list, and [fsum] and [getfreqs], which loop
    over [range(numlineshapes)], return the empty sum 0 and the empty array
    there. *)
Theorem counter_invariant :
  (forall adds : list nat,
      let m := fold_left add adds SpectralModel_new in
      numlineshapes m = length (lineshapes m) /\ lineshapes m = adds) /\
  (forall (m : SpectralModel) (l : nat),
      lineshapes (add m l) = lineshapes m ++ [l] /\
      numlineshapes (add m l) = numlineshapes m + 1) /\
  (forall ls : list nat,
      numlineshapes (SpectralModel_init ls) = 0 /\
      lineshapes (SpectralModel_init ls) = ls /\
      (ls <> [] ->
       numlineshapes (SpectralModel_init ls) <> length (lineshapes (SpectralModel_init ls)))) /\
  (forall (ls : list nat) (h : heap),
      fsum (SpectralModel_init ls) h = (Ok (PyInt 0), h) /\
      getfreqs (SpectralModel_init ls) h = (Ok [], h)).
Proof.
  split; [|split; [|split]].
  - intros adds m. subst m.
    destruct (fold_add_spec adds SpectralModel_new) as [E1 E2].
    rewrite E1, E2. simpl. done.
  - intros m l. split; reflexivity.
  - intros ls. split; [reflexivity | split; [reflexivity |]].
    simpl. destruct ls; [congruence | simpl; lia].
  - intros ls h. split; reflexivity.
Qed.

(** ** The lineshape methods *)

Lemma call_unfold (K : Kernel) (l : nat) (w : list spec_float) (h : heap) (o : Lineshape.t) :
  objs h !! l = Some o ->
  call K l w h =
  match Lineshape.cls o with
  | Debye => Debye_call o w h
  | DHO => DHO_call o w h
  | BrendelDHO => BrendelDHO_call K l o w h
  | DistributionOfDebye => (Raise TypeError, h)
  | StretchedExp => StretchedExp_call K o w h
  | PowerLawDebye => PowerLawDebye_call K o w h
  | ColeCole => ColeCole_call o w h
  | VanVleck => VanVleck_call o w h
  | Gaussian => Gaussian_call o w h
  | constant => constant_call o w h
  end.
Proof.
  intros E. unfold call, bind, get_obj. rewrite E. by destruct (Lineshape.cls o).
Qed.

Lemma call_dangling (K : Kernel) (l : nat) (w : list spec_float) (h : heap) :
  objs h !! l = None -> call K l w h = (Raise SystemError, h).
Proof. intros E. unfold call, bind, get_obj. by rewrite E. Qed.

(** The value [Debye.__call__] computes from [f = p[0]] and [wD = p[1]]. *)
Definition Debye_value (f wD : spec_float) (w : list spec_float) : list spec_float * list spec_float :=
  let rp := map (fun wi => fdiv (fmul f (fpow2 wD)) (fadd (fpow2 wD) (fpow2 wi))) w in
  (rp, map (fun x => fdiv x wD) (zip_with fmul rp w)).

Lemma Debye_call_value (o : Lineshape.t) (w xs : list spec_float) (h : heap) (f wD : spec_float) :
  lists h !! Lineshape.p o = Some xs -> xs !! 0 = Some f -> xs !! 1 = Some wD ->
  Debye_call o w h = (Ok (Debye_value f wD w), h).
Proof.
  intros E E0 E1. unfold Debye_call.
  rewrite (bind_ok _ _ _ _ _ (param_some o 0 h xs f E E0)).
  rewrite (bind_ok _ _ _ _ _ (param_some o 1 h xs wD E E1)).
  reflexivity.
Qed.

(** C6 (as the code has it). [ColeCole.__call__] on the parameters
    [f, wD, alpha] returns the value [Debye.__call__] computes from [f] and
    [wD]: the exponent [alpha] is never read, so the result is the same for
    every [alpha]. *)
Theorem ColeCole_call_is_Debye (K : Kernel) (l : nat) (o : Lineshape.t) (h : heap)
    (f wD alpha : spec_float) (w : list spec_float) :
  objs h !! l = Some o ->
  Lineshape.cls o = ColeCole ->
  lists h !! Lineshape.p o = Some [f; wD; alpha] ->
  call K l w h = (Ok (Debye_value f wD w), h).
Proof.
  intros Eo Ec Ep. rewrite (call_unfold K l w h o Eo), Ec. unfold ColeCole_call.
  rewrite (bind_ok _ _ _ _ _ (param_some o 0 h _ f Ep eq_refl)).
  rewrite (bind_ok _ _ _ _ _ (param_some o 1 h _ wD Ep eq_refl)).
  reflexivity.
Qed.

(** C5 (as the code has it). [VanVleck.__call__] and [Gaussian.__call__] on
    three numeric parameters raise [TypeError] for every frequency array:
    the line that computes [rp] calls the number [p[1]**2 + p[2]**2]. *)
Theorem VanVleck_Gaussian_call_raises (K : Kernel) (l : nat) (o : Lineshape.t) (h : heap)
    (f wT gamma : spec_float) (w : list spec_float) :
  objs h !! l = Some o ->
  Lineshape.cls o = VanVleck \/ Lineshape.cls o = Gaussian ->
  lists h !! Lineshape.p o = Some [f; wT; gamma] ->
  call K l w h = (Raise TypeError, h).
Proof.
  intros Eo Ec Ep. rewrite (call_unfold K l w h o Eo).
  destruct Ec as [-> | ->]; unfold VanVleck_call, Gaussian_call;
    rewrite (bind_ok _ _ _ _ _ (param_some o 0 h _ f Ep eq_refl));
    rewrite (bind_ok _ _ _ _ _ (param_some o 1 h _ wT Ep eq_refl));
    rewrite (bind_ok _ _ _ _ _ (param_some o 2 h _ gamma Ep eq_refl));
    reflexivity.
Qed.

(** ** C4: which attributes a call changes *)

(** A computation that leaves the store as it found it. *)
Definition readonly {A : Type} (c : M A) : Prop := forall h, snd (c h) = h.

Lemma readonly_ret {A : Type} (a : A) : readonly (ret a).
Proof. by intros h. Qed.

Lemma readonly_raise {A : Type} (e : exn) : readonly (raise e : M A).
Proof. by intros h. Qed.

Lemma readonly_lift {A : Type} (r : res A) : readonly (lift r).
Proof. by intros h. Qed.

Lemma readonly_bind {A B : Type} (c : M A) (k : A -> M B) :
  readonly c -> (forall a, readonly (k a)) -> readonly (bind c k).
Proof.
  intros Hc Hk h. unfold bind. specialize (Hc h).
  destruct (c h) as [[a|e] h1]; simpl in Hc; subst h1; [apply Hk | done].
Qed.

Lemma readonly_get_obj (l : nat) : readonly (get_obj l).
Proof. intros h. unfold get_obj. by destruct (objs h !! l). Qed.

Lemma readonly_get_list (l : nat) : readonly (get_list l).
Proof. intros h. unfold get_list. by destruct (lists h !! l). Qed.

Lemma readonly_param (o : Lineshape.t) (i : nat) : readonly (param o i).
Proof. intros h. apply param_heap. Qed.

Lemma readonly_attr {A : Type} (a : option A) : readonly (attr a).
Proof. destruct a; [apply readonly_ret | apply readonly_raise]. Qed.

Lemma readonly_if {A : Type} (b : bool) (c1 c2 : M A) :
  readonly c1 -> readonly c2 -> readonly (if b then c1 else c2).
Proof. by destruct b. Qed.

Ltac readonly_tac :=
  repeat first
    [ apply readonly_ret | apply readonly_raise | apply readonly_lift
    | apply readonly_param | apply readonly_attr | apply readonly_get_obj
    | apply readonly_get_list
    | apply readonly_if
    | apply readonly_bind; [| intros ?] ].

Lemma readonly_Debye_call (o : Lineshape.t) (w : list spec_float) : readonly (Debye_call o w).
Proof. unfold Debye_call. readonly_tac. Qed.

Lemma readonly_DHO_call (o : Lineshape.t) (w : list spec_float) : readonly (DHO_call o w).
Proof. unfold DHO_call. readonly_tac. Qed.

Lemma readonly_StretchedExp_call (K : Kernel) (o : Lineshape.t) (w : list spec_float) :
  readonly (StretchedExp_call K o w).
Proof. unfold StretchedExp_call, StretchedExp_calc_eps. readonly_tac. Qed.

Lemma readonly_PowerLawDebye_call (K : Kernel) (o : Lineshape.t) (w : list spec_float) :
  readonly (PowerLawDebye_call K o w).
Proof. unfold PowerLawDebye_call. readonly_tac. Qed.

Lemma readonly_ColeCole_call (o : Lineshape.t) (w : list spec_float) : readonly (ColeCole_call o w).
Proof. unfold ColeCole_call. readonly_tac. Qed.

Lemma readonly_VanVleck_call (o : Lineshape.t) (w : list spec_float) : readonly (VanVleck_call o w).
Proof. unfold VanVleck_call, call_number. readonly_tac. Qed.

Lemma readonly_Gaussian_call (o : Lineshape.t) (w : list spec_float) : readonly (Gaussian_call o w).
Proof. unfold Gaussian_call, call_number. readonly_tac. Qed.

Lemma readonly_constant_call (o : Lineshape.t) (w : list spec_float) : readonly (constant_call o w).
Proof. unfold constant_call. readonly_tac. Qed.

(** The object [o] with its attribute [f] set to [v]. *)
Definition with_f (o : Lineshape.t) (v : pynum) : Lineshape.t :=
  Lineshape.mk (Lineshape.cls o) (Lineshape.p o) (Lineshape.bounds o) (Lineshape.name o)
    (Lineshape.pnames o) (Lineshape.type o) (Some v) (Lineshape.convfac o).

(** Two objects with the same attributes, [f] apart. *)
Definition same_but_f (o o' : Lineshape.t) : Prop :=
  Lineshape.cls o = Lineshape.cls o' /\ Lineshape.p o = Lineshape.p o' /\
  Lineshape.bounds o = Lineshape.bounds o' /\ Lineshape.name o = Lineshape.name o' /\
  Lineshape.pnames o = Lineshape.pnames o' /\ Lineshape.type o = Lineshape.type o' /\
  Lineshape.convfac o = Lineshape.convfac o'.

Lemma same_but_f_refl (o : Lineshape.t) : same_but_f o o.
Proof. by repeat split. Qed.

Lemma same_but_f_with_f (o : Lineshape.t) (v : pynum) : same_but_f o (with_f o v).
Proof. by repeat split. Qed.

(** What [BrendelDHO.__call__] does to the store: nothing when it raises,
    and the assignment of [eps.real[1]] to [f] when it returns. *)
Lemma BrendelDHO_call_store (K : Kernel) (l : nat) (o : Lineshape.t) (w : list spec_float) (h : heap) :
  objs h !! l = Some o ->
  match BrendelDHO_call K l o w h with
  | (Ok (rp, cp), h') =>
      exists e1, rp !! 1 = Some e1 /\
                 h' = Heap (lists h) (<[l := with_f o (NpFloat e1)]> (objs h))
  | (Raise _, h') => h' = h
  end.
Proof.
  intros Eo. unfold BrendelDHO_call.
  rewrite bind_param.
  destruct (lists h !! Lineshape.p o) as [xs|] eqn:Exs; [|done].
  destruct (xs !! 3) as [sigma|]; [|done].
  rewrite bind_param, Exs. destruct (xs !! 1) as [x0|]; [|done].
  rewrite bind_param, Exs. destruct (xs !! 2) as [g|]; [|done].
  rewrite bind_param, Exs. destruct (xs !! 0) as [p0|]; [|done].
  unfold bind at 1, lift. unfold getitem at 1.
  match goal with |- context [?m !! 1] => destruct (m !! 1) as [e1|] eqn:E1 end; [|done].
  unfold bind, set_f, ret. rewrite Eo. eauto.
Qed.

(** With four parameters and at least two frequencies the method returns. *)
Lemma BrendelDHO_call_returns (K : Kernel) (l : nat) (o : Lineshape.t) (h : heap)
    (p0 x0 g sigma w0 w1 : spec_float) (ws : list spec_float) :
  objs h !! l = Some o ->
  lists h !! Lineshape.p o = Some [p0; x0; g; sigma] ->
  is_ok (fst (BrendelDHO_call K l o (w0 :: w1 :: ws) h)) = true.
Proof.
  intros Eo Ep. unfold BrendelDHO_call.
  rewrite bind_param, Ep. cbn [lookup list_lookup].
  rewrite bind_param, Ep. cbn [lookup list_lookup].
  rewrite bind_param, Ep. cbn [lookup list_lookup].
  rewrite bind_param, Ep. cbn [lookup list_lookup].
  unfold bind, lift, getitem, set_f, ret, BrendelDHO_eps.
  cbn [map lookup list_lookup]. rewrite Eo. reflexivity.
Qed.

(** What a call of the lineshape at [l] does to the store. *)
Lemma call_store (K : Kernel) (l : nat) (w : list spec_float) (h : heap) (o : Lineshape.t) :
  objs h !! l = Some o ->
  (Lineshape.cls o <> BrendelDHO -> snd (call K l w h) = h) /\
  lists (snd (call K l w h)) = lists h /\
  (forall l', l' <> l -> objs (snd (call K l w h)) !! l' = objs h !! l') /\
  (exists o', objs (snd (call K l w h)) !! l = Some o' /\ same_but_f o o') /\
  (Lineshape.cls o = BrendelDHO ->
   forall rp cp, fst (call K l w h) = Ok (rp, cp) ->
   exists e1, rp !! 1 = Some e1 /\
              objs (snd (call K l w h)) !! l = Some (with_f o (NpFloat e1))).
Proof.
  intros Eo. rewrite (call_unfold K l w h o Eo).
  assert (Hsame : forall c : M (list spec_float * list spec_float), readonly c ->
            snd (c h) = h /\ lists (snd (c h)) = lists h /\
            (forall l', l' <> l -> objs (snd (c h)) !! l' = objs h !! l') /\
            (exists o', objs (snd (c h)) !! l = Some o' /\ same_but_f o o')).
  { intros c Hc. rewrite (Hc h).
    split; [done | split; [done | split; [done |]]].
    exists o. split; [done | apply same_but_f_refl]. }
  destruct (Lineshape.cls o) eqn:Ec;
    try (match goal with
         | |- context [snd (?c h)] =>
             let Hr := fresh in
             assert (Hr : readonly c) by
               first [ apply readonly_Debye_call | apply readonly_DHO_call
                     | apply readonly_StretchedExp_call | apply readonly_PowerLawDebye_call
                     | apply readonly_ColeCole_call | apply readonly_VanVleck_call
                     | apply readonly_Gaussian_call | apply readonly_constant_call ];
             destruct (Hsame c Hr) as (H1 & H2 & H3 & H4);
             split; [done | split; [done | split; [done | split; [done | discriminate]]]]
         end).
  - pose proof (BrendelDHO_call_store K l o w h Eo) as Hs.
    destruct (BrendelDHO_call K l o w h) as [[[rp cp]|e] h']; simpl.
    + destruct Hs as (e1 & E1 & ->). simpl.
      split; [done | split; [done | split; [| split]]].
      * intros l' Hl'. by rewrite lookup_insert_ne.
      * exists (with_f o (NpFloat e1)). rewrite lookup_insert_eq.
        split; [done | apply same_but_f_with_f].
      * intros _ rp' cp' [= <- <-]. exists e1. by rewrite lookup_insert_eq.
    + subst h'. split; [done | split; [done | split; [done | split; [| discriminate]]]].
      exists o. split; [done | apply same_but_f_refl].
  - simpl. split; [done | split; [done | split; [done | split; [| discriminate]]]].
    exists o. split; [done | apply same_but_f_refl].
Qed.

(** C4 (amended). A call of a lineshape leaves the parameter lists and every
    other object as they were, and keeps every attribute of the called
    object except possibly [f]; for every class other than [BrendelDHO] the
    store is unchanged altogether, also when the call raises.  A
    [BrendelDHO] call that returns has stored [eps.real[1]] in [f]. *)
Theorem lineshape_call_frame (K : Kernel) (l : nat) (w : list spec_float) (h : heap) (o : Lineshape.t) :
  objs h !! l = Some o ->
  (Lineshape.cls o <> BrendelDHO -> snd (call K l w h) = h) /\
  lists (snd (call K l w h)) = lists h /\
  (forall l', l' <> l -> objs (snd (call K l w h)) !! l' = objs h !! l') /\
  (exists o', objs (snd (call K l w h)) !! l = Some o' /\ same_but_f o o') /\
  (Lineshape.cls o = BrendelDHO ->
   forall rp cp, fst (call K l w h) = Ok (rp, cp) ->
   exists e1, rp !! 1 = Some e1 /\
              objs (snd (call K l w h)) !! l = Some (with_f o (NpFloat e1))).
Proof. exact (call_store K l w h o). Qed.

(** C4, witness: [VanVleck()] called on the array [1.0]. *)
Lemma lineshape_call_frame_VanVleck :
  (Lineshape.cls (VanVleck_init 0 unbounded2 "VanVleck") <> BrendelDHO ->
   snd (call nan_kernel 0 [f1] VanVleck_store) = VanVleck_store) /\
  lists (snd (call nan_kernel 0 [f1] VanVleck_store)) = lists VanVleck_store.
Proof.
  pose proof (lineshape_call_frame nan_kernel 0 [f1] VanVleck_store
                (VanVleck_init 0 unbounded2 "VanVleck") eq_refl) as (H1 & H2 & _).
  exact (conj H1 H2).
Defined.

(** C4, counterexample: [BrendelDHO()] holds [f = 0], the [int]; called on
    the array [1.0, 2.0] it returns, and [f] then holds the [float64]
    [eps.real[1]], whatever the kernel computes: the store has changed. *)
Lemma BrendelDHO_call_assigns_f :
  objs BrendelDHO_store !! 0 = Some (BrendelDHO_init 0 positive4 "BrendelDHO") /\
  Lineshape.f (BrendelDHO_init 0 positive4 "BrendelDHO") = Some (PyInt 0) /\
  forall K : Kernel,
    is_ok (fst (call K 0 [f1; f2] BrendelDHO_store)) = true /\
    (exists e1 : spec_float,
        Lineshape.f <$> (objs (snd (call K 0 [f1; f2] BrendelDHO_store)) !! 0)
        = Some (Some (NpFloat e1))) /\
    snd (call K 0 [f1; f2] BrendelDHO_store) <> BrendelDHO_store.
Proof.
  split; [reflexivity | split; [reflexivity |]].
  intros K.
  pose proof (BrendelDHO_call_store K 0 (BrendelDHO_init 0 positive4 "BrendelDHO")
                [f1; f2] BrendelDHO_store eq_refl) as Hs.
  rewrite (call_unfold K 0 [f1; f2] BrendelDHO_store _ eq_refl).
  change (Lineshape.cls (BrendelDHO_init 0 positive4 "BrendelDHO")) with BrendelDHO.
  cbv iota.
  destruct (BrendelDHO_call K 0 _ [f1; f2] BrendelDHO_store) as [[[rp cp]|e] h'] eqn:Ecall.
  - destruct Hs as (e1 & E1 & ->). simpl.
    split; [reflexivity | split].
    + exists e1. by rewrite lookup_insert_eq.
    + intros E. apply (f_equal (fun h => Lineshape.f <$> (objs h !! 0))) in E.
      simpl in E. rewrite lookup_insert_eq in E. discriminate E.
  - pose proof (BrendelDHO_call_returns K 0 (BrendelDHO_init 0 positive4 "BrendelDHO")
                  BrendelDHO_store f1 f1 f1 f1 f1 f2 [] eq_refl eq_refl) as Hok.
    rewrite Ecall in Hok. discriminate Hok.
Qed.

(** C5, witness and failing input: [VanVleck()] with its default parameters
    [1, 1, 1], called on the array [1.0], raises [TypeError]. *)
Lemma VanVleck_default_raises :
  call nan_kernel 0 [f1] VanVleck_store = (Raise TypeError, VanVleck_store).
Proof.
  apply (VanVleck_Gaussian_call_raises nan_kernel 0 (VanVleck_init 0 unbounded2 "VanVleck")
           VanVleck_store f1 f1 f1 [f1]); [reflexivity | left; reflexivity | reflexivity].
Defined.

(** The same for [Gaussian()], with every kernel. *)
Lemma Gaussian_default_raises (K : Kernel) :
  call K 0 [f1] Gaussian_store = (Raise TypeError, Gaussian_store).
Proof. reflexivity. Qed.

(** C6, witness and failing input: [ColeCole(params=[1, 1, 0.5])] at the
    frequency 1.0 returns the Debye value (0.5, 0.5). *)
Lemma ColeCole_half_is_Debye :
  call nan_kernel 0 [f1] ColeCole_store = (Ok (Debye_value f1 f1 [f1]), ColeCole_store) /\
  Debye_value f1 f1 [f1] = ([fhalf], [fhalf]).
Proof.
  split.
  - apply (ColeCole_call_is_Debye nan_kernel 0 (ColeCole_init 0 [(f0, finf); (f0, finf); (f0, f2)] "unnamed")
             ColeCole_store f1 f1 fhalf [f1]); reflexivity.
  - vm_compute. reflexivity.
Defined.

(** ** C8: [setparams] and [getparams] *)

(** The parameter list of each lineshape of a model: the location of the
    list object and its contents.  [None] when a reference is dangling. *)
Fixpoint param_lists (h : heap) (ls : list nat) : option (list (nat * list spec_float)) :=
  match ls with
  | [] => Some []
  | l :: ls' =>
      match objs h !! l with
      | Some o =>
          match lists h !! Lineshape.p o with
          | Some xs =>
              match param_lists h ls' with
              | Some r => Some ((Lineshape.p o, xs) :: r)
              | None => None
              end
          | None => None
          end
      | None => None
      end
  end.

Lemma getparams_loop_spec (ls : list nat) (acc : list spec_float) (h : heap) :
  getparams_loop ls acc h =
  match param_lists h ls with
  | Some r => (Ok (acc ++ concat r.*2), h)
  | None => (Raise SystemError, h)
  end.
Proof.
  revert acc. induction ls as [|l ls IH]; intros acc; simpl.
  - by rewrite app_nil_r.
  - unfold bind, get_obj, get_list.
    destruct (objs h !! l) as [o|]; [|done].
    destruct (lists h !! Lineshape.p o) as [xs|]; [|done].
    rewrite IH. destruct (param_lists h ls) as [r|]; [|done].
    simpl. by rewrite app_assoc.
Qed.

Lemma getparams_inv (m : SpectralModel) (h h' : heap) (qs : list spec_float) :
  getparams m h = (Ok qs, h') ->
  h' = h /\ exists r, param_lists h (lineshapes m) = Some r /\ qs = concat r.*2.
Proof.
  unfold getparams. rewrite getparams_loop_spec.
  destruct (param_lists h (lineshapes m)) as [r|]; intros [= <- <-]. eauto.
Qed.

(** The parameter lists read the same in a store with the same objects
    and the same contents at their locations. *)
Lemma param_lists_frame (h h1 : heap) (ls : list nat) (r : list (nat * list spec_float)) :
  objs h1 = objs h ->
  (forall pl, pl ∈ r.*1 -> lists h1 !! pl = lists h !! pl) ->
  param_lists h ls = Some r -> param_lists h1 ls = Some r.
Proof.
  intros Eo. revert r. induction ls as [|l ls IH]; intros r Hl; simpl; [done|].
  rewrite Eo. destruct (objs h !! l) as [o|]; [|done].
  destruct (lists h !! Lineshape.p o) as [xs|] eqn:Exs; [|done].
  destruct (param_lists h ls) as [r0|] eqn:Er0; [|done].
  intros [= <-]. rewrite (Hl (Lineshape.p o)), Exs by (simpl; left).
  rewrite (IH r0); [done | | done].
  intros pl Hpl. apply Hl. simpl. by right.
Qed.

(** The inner loop writes the next [rounds] values of [params] into the
    list. *)
Lemma setparams_inner_spec (pl : nat) (params : list spec_float) (rounds : nat) :
  forall (j i : nat) (xs : list spec_float) (h : heap),
    lists h !! pl = Some xs ->
    j + rounds = length xs ->
    i + rounds <= length params ->
    setparams_inner pl params rounds j i h =
    (Ok (i + rounds),
     Heap (<[pl := take j xs ++ take rounds (drop i params)]> (lists h)) (objs h)).
Proof.
  induction rounds as [|rounds IH]; intros j i xs h Exs Hj Hi; simpl.
  - unfold ret. rewrite Nat.add_0_r, app_nil_r, take_ge by lia.
    by rewrite insert_id, heap_eta.
  - destruct (lookup_lt_is_Some_2 params i) as [v Ev]; [lia|].
    unfold bind at 1, lift, getitem. rewrite Ev.
    unfold bind at 1, set_item. rewrite Exs.
    destruct (decide (j < length xs)); [|lia].
    rewrite (IH (S j) (S i) (<[j := v]> xs)); simpl.
    + f_equal; [f_equal; lia|].
      rewrite insert_insert_eq. f_equal. f_equal.
      rewrite (take_S_r _ j v) by (by apply list_lookup_insert_eq).
      rewrite take_insert_ge by lia.
      rewrite (drop_S params v i Ev). simpl. by rewrite <- app_assoc.
    + by rewrite lookup_insert_eq.
    + rewrite length_insert. lia.
    + lia.
Qed.

(** With parameter lists that are distinct objects, [setparams] stores the
    successive chunks of [params], and the lists then read as these chunks. *)
Lemma setparams_loop_spec (params : list spec_float) (ls : list nat) :
  forall (h : heap) (r : list (nat * list spec_float)) (i : nat),
    param_lists h ls = Some r ->
    NoDup r.*1 ->
    i + length (concat r.*2) <= length params ->
    exists h' r',
      setparams_loop ls params i h = (Ok (i + length (concat r.*2)), h') /\
      objs h' = objs h /\
      (forall pl, pl ∉ r.*1 -> lists h' !! pl = lists h !! pl) /\
      param_lists h' ls = Some r' /\
      concat r'.*2 = take (length (concat r.*2)) (drop i params).
Proof.
  induction ls as [|l ls IH]; intros h r i Hr Hnd Hi; simpl in Hr.
  - injection Hr as <-. exists h, []. simpl. unfold ret. rewrite Nat.add_0_r. done.
  - destruct (objs h !! l) as [o|] eqn:Eo; [|done].
    destruct (lists h !! Lineshape.p o) as [xs|] eqn:Exs; [|done].
    destruct (param_lists h ls) as [r0|] eqn:Er0; [|done].
    injection Hr as <-.
    change (((Lineshape.p o, xs) :: r0).*1) with (Lineshape.p o :: r0.*1) in *.
    change (concat ((Lineshape.p o, xs) :: r0).*2) with (xs ++ concat r0.*2) in *.
    apply NoDup_cons in Hnd as [Hnotin Hnd]. rewrite length_app in Hi.
    pose proof (setparams_inner_spec (Lineshape.p o) params (length xs) 0 i xs h Exs eq_refl) as Hin.
    rewrite take_0 in Hin. simpl in Hin. specialize (Hin ltac:(lia)).
    set (h1 := Heap (<[Lineshape.p o := take (length xs) (drop i params)]> (lists h)) (objs h)) in *.
    assert (Er1 : param_lists h1 ls = Some r0).
    { apply (param_lists_frame h); [done | | done].
      intros pl Hpl. simpl. apply lookup_insert_ne. intros E. subst pl. done. }
    destruct (IH h1 r0 (i + length xs) Er1 Hnd ltac:(lia)) as (h' & r0' & Hloop & Eobjs & Hframe & Er0' & Hc).
    exists h', ((Lineshape.p o, take (length xs) (drop i params)) :: r0').
    split; [|split; [|split; [|split]]].
    + cbn [setparams_loop].
      unfold bind at 1, get_obj. rewrite Eo.
      unfold bind at 1, get_list. rewrite Exs.
      unfold bind at 1. rewrite Hin, Hloop, length_app. f_equal. f_equal. lia.
    + by rewrite Eobjs.
    + intros pl Hpl. apply not_elem_of_cons in Hpl as [Hne Hpl].
      rewrite (Hframe pl Hpl). simpl. by apply lookup_insert_ne.
    + cbn [param_lists]. rewrite Eobjs. cbn [objs h1]. rewrite Eo.
      rewrite (Hframe _ Hnotin). cbn [lists h1]. rewrite lookup_insert_eq. by rewrite Er0'.
    + change (concat ((Lineshape.p o, take (length xs) (drop i params)) :: r0').*2)
        with (take (length xs) (drop i params) ++ concat r0'.*2).
      rewrite Hc, length_app.
      rewrite <- (take_take_drop (drop i params) (length xs)), drop_drop.
      done.
Qed.

(** Writing into a list the values it holds leaves the store as it is. *)
Lemma setparams_inner_same (pl : nat) (params xs : list spec_float) (rounds : nat) :
  forall (j i : nat) (h : heap),
    lists h !! pl = Some xs ->
    j + rounds <= length xs ->
    (forall t, t < rounds -> params !! (i + t) = xs !! (j + t)) ->
    setparams_inner pl params rounds j i h = (Ok (i + rounds), h).
Proof.
  induction rounds as [|rounds IH]; intros j i h Exs Hj Hsame; simpl.
  - unfold ret. by rewrite Nat.add_0_r.
  - destruct (lookup_lt_is_Some_2 xs j) as [v Ev]; [lia|].
    pose proof (Hsame 0 ltac:(lia)) as E0. rewrite !Nat.add_0_r, Ev in E0.
    unfold bind at 1, lift, getitem. rewrite E0.
    unfold bind at 1, set_item. rewrite Exs.
    destruct (decide (j < length xs)); [|lia].
    rewrite (list_insert_id xs j v Ev), (insert_id _ _ _ Exs), heap_eta.
    rewrite (IH (S j) (S i) h Exs); [f_equal; f_equal; lia | lia |].
    intros t Ht. specialize (Hsame (S t) ltac:(lia)).
    by rewrite !Nat.add_succ_r in Hsame.
Qed.

Lemma setparams_loop_same (params : list spec_float) (ls : list nat) (h : heap) :
  forall (r : list (nat * list spec_float)) (i : nat),
    param_lists h ls = Some r ->
    take (length (concat r.*2)) (drop i params) = concat r.*2 ->
    setparams_loop ls params i h = (Ok (i + length (concat r.*2)), h).
Proof.
  induction ls as [|l ls IH]; intros r i Hr Hc; simpl in Hr.
  - injection Hr as <-. simpl. unfold ret. by rewrite Nat.add_0_r.
  - destruct (objs h !! l) as [o|] eqn:Eo; [|done].
    destruct (lists h !! Lineshape.p o) as [xs|] eqn:Exs; [|done].
    destruct (param_lists h ls) as [r0|] eqn:Er0; [|done].
    injection Hr as <-.
    change (concat ((Lineshape.p o, xs) :: r0).*2) with (xs ++ concat r0.*2) in *.
    rewrite length_app in *.
    assert (Hx : take (length xs) (drop i params) = xs /\
                 take (length (concat r0.*2)) (drop (i + length xs) params) = concat r0.*2).
    { rewrite <- (take_take_drop (drop i params) (length xs)), drop_drop in Hc.
      apply app_inj_1 in Hc; [done|].
      apply (f_equal length) in Hc. rewrite !length_app, !length_take, !length_drop in Hc.
      rewrite length_take, length_drop. lia. }
    destruct Hx as [Hx1 Hx2]. cbn [setparams_loop].
    unfold bind at 1, get_obj. rewrite Eo.
    unfold bind at 1, get_list. rewrite Exs.
    unfold bind at 1.
    rewrite (setparams_inner_same (Lineshape.p o) params xs (length xs) 0 i h Exs); [| lia |].
    + rewrite (IH r0 (i + length xs) eq_refl Hx2). f_equal. f_equal. lia.
    + intros t Ht. simpl. rewrite <- lookup_drop.
      rewrite <- (lookup_take_lt (drop i params) (length xs) t Ht). by rewrite Hx1.
Qed.

(** C8 (amended). For a model whose lineshapes hold their parameters in
    pairwise distinct list objects, of total length [n], and a list [ps] of
    [n] numbers, [setparams(ps)] followed by [getparams()] returns [ps];
    and, whether lists are shared or not, [setparams(getparams())] leaves
    the store as it is. *)
Theorem setparams_getparams_roundtrip (m : SpectralModel) (h : heap) :
  (forall (r : list (nat * list spec_float)) (ps : list spec_float),
      param_lists h (lineshapes m) = Some r ->
      NoDup r.*1 ->
      length ps = length (concat r.*2) ->
      exists h', setparams m ps h = (Ok tt, h') /\ getparams m h' = (Ok ps, h')) /\
  (forall (qs : list spec_float) (h1 : heap),
      getparams m h = (Ok qs, h1) ->
      h1 = h /\ setparams m qs h = (Ok tt, h)).
Proof.
  split.
  - intros r ps Hr Hnd Hlen.
    destruct (setparams_loop_spec ps (lineshapes m) h r 0 Hr Hnd ltac:(simpl; lia))
      as (h' & r' & Hloop & _ & _ & Hr' & Hc).
    exists h'. split.
    + unfold setparams, bind. by rewrite Hloop.
    + unfold getparams. rewrite getparams_loop_spec, Hr', app_nil_l, Hc, drop_0.
      by rewrite take_ge by lia.
  - intros qs h1 Hget. apply getparams_inv in Hget as (-> & r & Hr & ->).
    split; [done|]. unfold setparams, bind.
    rewrite (setparams_loop_same _ _ h r 0 Hr); [done|].
    by rewrite drop_0, take_ge.
Qed.

(** C8, witness: two [Debye] lineshapes with a parameter list each. *)
Lemma roundtrip_two_Debye_distinct :
  exists h', setparams two_lineshapes [f1; f2; f3; f4] two_Debye_distinct = (Ok tt, h') /\
             getparams two_lineshapes h' = (Ok [f1; f2; f3; f4], h').
Proof.
  destruct (setparams_getparams_roundtrip two_lineshapes two_Debye_distinct) as [H _].
  apply (H [(0, [f1; f1]); (1, [f1; f1])]).
  - reflexivity.
  - apply NoDup_cons. split; [| apply NoDup_singleton].
    apply not_elem_of_cons. split; [discriminate | apply not_elem_of_nil].
  - reflexivity.
Defined.

(** C8, counterexample: a model of two lineshapes that hold the same list
    object as their [p].  The counter equals the number of lineshapes and
    the parameter lists have total length 4, yet [setparams([1, 2, 3, 4])]
    followed by [getparams()] returns [3, 4, 3, 4]. *)
Lemma roundtrip_fails_on_shared_list :
  numlineshapes two_lineshapes = length (lineshapes two_lineshapes) /\
  fst (getparams two_lineshapes two_Debye_shared) = Ok [f1; f1; f1; f1] /\
  (exists h', setparams two_lineshapes [f1; f2; f3; f4] two_Debye_shared = (Ok tt, h') /\
              getparams two_lineshapes h' = (Ok [f3; f4; f3; f4], h')) /\
  [f3; f4; f3; f4] <> [f1; f2; f3; f4].
Proof.
  split; [reflexivity | split; [reflexivity | split]].
  - eexists. split; [vm_compute; reflexivity | vm_compute; reflexivity].
  - intros E. vm_compute in E. discriminate E.
Qed.

(** ** C2: the model adds its lineshapes up *)

(** What a computation returns, when it returns. *)
Definition returns {A : Type} (c : M A) (P : A -> Prop) : Prop :=
  forall h a h', c h = (Ok a, h') -> P a.

Lemma returns_ret {A : Type} (a : A) (P : A -> Prop) : P a -> returns (ret a) P.
Proof. intros Ha h a' h' [= <- <-]. exact Ha. Qed.

Lemma returns_raise {A : Type} (e : exn) (P : A -> Prop) : returns (raise e) P.
Proof. intros h a h' E. discriminate E. Qed.

Lemma returns_bind {A B : Type} (c : M A) (k : A -> M B) (P : B -> Prop) :
  (forall a, returns (k a) P) -> returns (bind c k) P.
Proof.
  intros Hk h b h' E. apply bind_inv in E as (a & h1 & _ & E). by eapply Hk.
Qed.

Lemma returns_bind_left {A B : Type} (c : M A) (k : A -> M B) (P : B -> Prop) :
  returns c (fun _ => False) -> returns (bind c k) P.
Proof.
  intros Hc h b h' E. apply bind_inv in E as (a & h1 & E & _). by destruct (Hc h a h1 E).
Qed.

Definition same_length (w : list spec_float) (parts : list spec_float * list spec_float) : Prop :=
  length (fst parts) = length w /\ length (snd parts) = length w.

Ltac returns_tac :=
  repeat (apply returns_bind; intros ?);
  first [ apply returns_raise
        | apply returns_ret; split; simpl;
          rewrite ?length_map, ?length_zip_with, ?length_map; lia ].

(** The arrays a lineshape returns have the length of [w]. *)
Lemma call_length (K : Kernel) (l : nat) (w : list spec_float) :
  returns (call K l w) (same_length w).
Proof.
  unfold call. apply returns_bind. intros o.
  destruct (Lineshape.cls o).
  - unfold Debye_call. returns_tac.
  - unfold DHO_call. returns_tac.
  - unfold BrendelDHO_call, BrendelDHO_eps. returns_tac.
  - apply returns_raise.
  - unfold StretchedExp_call, StretchedExp_calc_eps. apply returns_bind_left.
    do 6 (apply returns_bind; intros ?). apply returns_bind_left, returns_raise.
  - unfold PowerLawDebye_call. returns_tac.
  - unfold ColeCole_call. returns_tac.
  - unfold VanVleck_call, call_number. do 3 (apply returns_bind; intros ?).
    apply returns_bind_left, returns_raise.
  - unfold Gaussian_call, call_number. do 3 (apply returns_bind; intros ?).
    apply returns_bind_left, returns_raise.
  - unfold constant_call. returns_tac.
Qed.

(** Two stores with the same parameter lists and the same objects, the
    attributes [f] apart. *)
Definition same_obj_opt (a b : option Lineshape.t) : Prop :=
  match a, b with
  | Some o, Some o' => same_but_f o o'
  | None, None => True
  | _, _ => False
  end.

Definition heq (h1 h2 : heap) : Prop :=
  lists h1 = lists h2 /\ forall l, same_obj_opt (objs h1 !! l) (objs h2 !! l).

Lemma same_but_f_sym (o o' : Lineshape.t) : same_but_f o o' -> same_but_f o' o.
Proof. intros (?&?&?&?&?&?&?). by repeat split. Qed.

Lemma same_but_f_trans (o1 o2 o3 : Lineshape.t) :
  same_but_f o1 o2 -> same_but_f o2 o3 -> same_but_f o1 o3.
Proof.
  intros (?&?&?&?&?&?&?) (?&?&?&?&?&?&?). repeat split; congruence.
Qed.

Lemma heq_refl (h : heap) : heq h h.
Proof.
  split; [done|]. intros l. unfold same_obj_opt.
  destruct (objs h !! l); [apply same_but_f_refl | done].
Qed.

(** Two computations that return the same from stores that are [heq], and
    leave them so. *)
Definition sim {A : Type} (c1 c2 : M A) : Prop :=
  forall h1 h2, heq h1 h2 ->
    fst (c1 h1) = fst (c2 h2) /\ heq (snd (c1 h1)) (snd (c2 h2)).

Lemma sim_ret {A : Type} (a : A) : sim (ret a) (ret a).
Proof. by intros h1 h2 H. Qed.

Lemma sim_raise {A : Type} (e : exn) : sim (raise e : M A) (raise e).
Proof. by intros h1 h2 H. Qed.

Lemma sim_lift {A : Type} (r : res A) : sim (lift r) (lift r).
Proof. by intros h1 h2 H. Qed.

Lemma sim_bind {A B : Type} (c1 c2 : M A) (k1 k2 : A -> M B) :
  sim c1 c2 -> (forall a, sim (k1 a) (k2 a)) -> sim (bind c1 k1) (bind c2 k2).
Proof.
  intros Hc Hk h1 h2 H. unfold bind. destruct (Hc h1 h2 H) as [E1 E2].
  destruct (c1 h1) as [r1 h1'], (c2 h2) as [r2 h2']. simpl in *. subst r2.
  destruct r1 as [a|e]; [by apply Hk | done].
Qed.

Lemma sim_param (o o' : Lineshape.t) (i : nat) :
  same_but_f o o' -> sim (param o i) (param o' i).
Proof.
  intros (_ & Ep & _) h1 h2 [El Ho]. rewrite !param_unfold, <- Ep, <- El.
  destruct (lists h1 !! Lineshape.p o); simpl; by split.
Qed.

Lemma sim_attr {A : Type} (a : option A) : sim (attr a) (attr a).
Proof. destruct a; [apply sim_ret | apply sim_raise]. Qed.

Lemma sim_set_f (l : nat) (v : pynum) : sim (set_f l v) (set_f l v).
Proof.
  intros h1 h2 [El Ho]. unfold set_f. pose proof (Ho l) as Hl. unfold same_obj_opt in Hl.
  destruct (objs h1 !! l) as [o1|] eqn:E1, (objs h2 !! l) as [o2|] eqn:E2; try done.
  simpl. split; [done|]. split; [done|]. intros l'. simpl.
  destruct (decide (l = l')) as [<-|Hne].
  - rewrite !lookup_insert_eq. simpl. destruct Hl as (?&?&?&?&?&?&?). by repeat split.
  - rewrite !lookup_insert_ne by done. apply Ho.
Qed.

Ltac sim_tac H :=
  repeat first
    [ apply sim_ret | apply sim_raise | apply sim_lift
    | apply sim_param; exact H | apply sim_set_f
    | apply sim_bind; [| intros ?] ].

(** The method of a lineshape returns the same in two such stores. *)
Lemma call_sim (K : Kernel) (l : nat) (w : list spec_float) : sim (call K l w) (call K l w).
Proof.
  intros h1 h2 H. pose proof (proj2 H l) as Hl. unfold same_obj_opt in Hl.
  destruct (objs h1 !! l) as [o1|] eqn:E1, (objs h2 !! l) as [o2|] eqn:E2; try done.
  - rewrite (call_unfold K l w h1 o1 E1), (call_unfold K l w h2 o2 E2).
    pose proof Hl as (Ec & _ & _ & _ & _ & _ & Ecf). rewrite <- Ec.
    destruct (Lineshape.cls o1).
    + cut (sim (Debye_call o1 w) (Debye_call o2 w)); [intros S; by apply S|].
      unfold Debye_call. sim_tac Hl.
    + cut (sim (DHO_call o1 w) (DHO_call o2 w)); [intros S; by apply S|].
      unfold DHO_call. sim_tac Hl.
    + cut (sim (BrendelDHO_call K l o1 w) (BrendelDHO_call K l o2 w)); [intros S; by apply S|].
      unfold BrendelDHO_call. sim_tac Hl.
    + by split.
    + cut (sim (StretchedExp_call K o1 w) (StretchedExp_call K o2 w)); [intros S; by apply S|].
      unfold StretchedExp_call, StretchedExp_calc_eps. sim_tac Hl.
    + cut (sim (PowerLawDebye_call K o1 w) (PowerLawDebye_call K o2 w)); [intros S; by apply S|].
      unfold PowerLawDebye_call. rewrite <- Ecf. sim_tac Hl. apply sim_attr.
    + cut (sim (ColeCole_call o1 w) (ColeCole_call o2 w)); [intros S; by apply S|].
      unfold ColeCole_call. sim_tac Hl.
    + cut (sim (VanVleck_call o1 w) (VanVleck_call o2 w)); [intros S; by apply S|].
      unfold VanVleck_call, call_number. sim_tac Hl.
    + cut (sim (Gaussian_call o1 w) (Gaussian_call o2 w)); [intros S; by apply S|].
      unfold Gaussian_call, call_number. sim_tac Hl.
    + cut (sim (constant_call o1 w) (constant_call o2 w)); [intros S; by apply S|].
      unfold constant_call. sim_tac Hl.
  - rewrite !call_dangling by done. by split.
Qed.

Lemma heq_sym (h1 h2 : heap) : heq h1 h2 -> heq h2 h1.
Proof.
  intros [El Ho]. split; [done|]. intros l. specialize (Ho l). unfold same_obj_opt in *.
  destruct (objs h1 !! l), (objs h2 !! l); try done. by apply same_but_f_sym.
Qed.

Lemma heq_trans (h1 h2 h3 : heap) : heq h1 h2 -> heq h2 h3 -> heq h1 h3.
Proof.
  intros [El Ho] [El' Ho']. split; [congruence|]. intros l.
  specialize (Ho l). specialize (Ho' l). unfold same_obj_opt in *.
  destruct (objs h1 !! l), (objs h2 !! l), (objs h3 !! l); try done.
  by eapply same_but_f_trans.
Qed.

(** A call leaves a store that is [heq] to the one it started from. *)
Lemma call_heq (K : Kernel) (l : nat) (w : list spec_float) (h : heap) :
  heq h (snd (call K l w h)).
Proof.
  destruct (objs h !! l) as [o|] eqn:Eo.
  - destruct (call_store K l w h o Eo) as (_ & El & Hother & (o' & Eo' & Hsame) & _).
    split; [done|]. intros l'. unfold same_obj_opt.
    destruct (decide (l' = l)) as [->|Hne].
    + by rewrite Eo, Eo'.
    + rewrite (Hother l' Hne). destruct (objs h !! l'); [apply same_but_f_refl | done].
  - rewrite call_dangling by done. apply heq_refl.
Qed.

Lemma np_binop_same_length (op : spec_float -> spec_float -> spec_float) (a b : list spec_float) :
  length a = length b -> np_binop op a b = Ok (zip_with op a b).
Proof. intros E. unfold np_binop. by destruct (decide (length a = length b)). Qed.

(** Entry [j] of each array of a list, and the sum of the arrays entry by
    entry: entry [j] of the sum is 0.0 plus the entries [j], from the first
    array to the last. *)
Definition entries (j : nat) (cols : list (list spec_float)) : list spec_float :=
  map (fun c => default f0 (c !! j)) cols.

Definition elementwise_sum (n : nat) (cols : list (list spec_float)) : list spec_float :=
  map (fun j => fold_left fadd (entries j cols) f0) (seq 0 n).

Lemma fold_zip_with_length (cols : list (list spec_float)) (acc : list spec_float) :
  Forall (fun c => length c = length acc) cols ->
  length (fold_left (zip_with fadd) cols acc) = length acc.
Proof.
  revert acc. induction cols as [|c cols IH]; intros acc Hc; simpl; [done|].
  apply Forall_cons in Hc as [Ec Hc].
  assert (El : length (zip_with fadd acc c) = length acc).
  { rewrite length_zip_with. lia. }
  rewrite IH, El; [done|]. eapply Forall_impl; [exact Hc|]. simpl. intros x Hx. congruence.
Qed.

Lemma fold_zip_with_lookup (cols : list (list spec_float)) :
  forall (acc : list spec_float) (j : nat) (a : spec_float),
    Forall (fun c => length c = length acc) cols ->
    acc !! j = Some a ->
    fold_left (zip_with fadd) cols acc !! j = Some (fold_left fadd (entries j cols) a).
Proof.
  induction cols as [|c cols IH]; intros acc j a Hc Ea; simpl; [done|].
  apply Forall_cons in Hc as [Ec Hc].
  destruct (lookup_lt_is_Some_2 c j) as [x Ex].
  { rewrite Ec. apply lookup_lt_is_Some_1. eauto. }
  rewrite Ex. simpl. apply IH.
  - eapply Forall_impl; [exact Hc|]. simpl. intros y Hy. rewrite length_zip_with. lia.
  - rewrite lookup_zip_with, Ea, Ex. done.
Qed.

Lemma fold_zip_with_sum (n : nat) (cols : list (list spec_float)) :
  Forall (fun c => length c = n) cols ->
  fold_left (zip_with fadd) cols (zeros n) = elementwise_sum n cols.
Proof.
  intros Hc. assert (Hz : length (zeros n) = n) by apply length_replicate.
  assert (Hc' : Forall (fun c => length c = length (zeros n)) cols).
  { eapply Forall_impl; [exact Hc|]. simpl. intros. congruence. }
  apply list_eq. intros j. unfold elementwise_sum.
  rewrite list_lookup_fmap.
  destruct (decide (j < n)) as [Hj|Hj].
  - rewrite lookup_seq_lt by done. simpl.
    apply fold_zip_with_lookup; [done|]. by apply lookup_replicate_2.
  - rewrite lookup_seq_ge by lia. simpl. apply lookup_ge_None_2.
    rewrite fold_zip_with_length by done. lia.
Qed.

(** The loop of [SpectralModel.__call__], started in a store that is [heq]
    to the one in which the lineshapes were evaluated one by one. *)
Lemma call_loop_spec (K : Kernel) (w : list spec_float) (h : heap) (ls : list nat)
    (parts : list (list spec_float * list spec_float)) :
  Forall2 (fun l part => fst (call K l w h) = Ok part) ls parts ->
  forall (h' : heap) (rp cp : list spec_float),
    heq h h' -> length rp = length w -> length cp = length w ->
    fst (call_loop K ls w rp cp h') =
    Ok (fold_left (zip_with fadd) parts.*1 rp, fold_left (zip_with fadd) parts.*2 cp).
Proof.
  induction 1 as [|l part ls parts Hl Hrest IH]; intros h' rp cp Hh Hrp Hcp; [done|].
  cbn [call_loop]. unfold bind at 1.
  destruct (call_sim K l w h h' Hh) as [Er Hh'].
  pose proof (call_heq K l w h) as Hself.
  destruct (call K l w h') as [r h''] eqn:Ecall. simpl in Er, Hh'.
  rewrite <- Er, Hl.
  assert (Hlen : same_length w part).
  { apply (call_length K l w h' part h''). rewrite Ecall. f_equal. by rewrite <- Er, Hl. }
  destruct Hlen as [L1 L2].
  unfold bind at 1, lift, np_add. rewrite np_binop_same_length by congruence.
  unfold bind at 1. rewrite np_binop_same_length by congruence.
  rewrite (IH h'').
  - done.
  - eapply heq_trans; [exact Hself | exact Hh'].
  - rewrite length_zip_with. lia.
  - rewrite length_zip_with. lia.
Qed.

(** When the loop returns, each lineshape returned. *)
Lemma call_loop_parts (K : Kernel) (w : list spec_float) (h : heap) (ls : list nat) :
  forall (h' : heap) (rp cp : list spec_float),
    heq h h' ->
    is_ok (fst (call_loop K ls w rp cp h')) = true ->
    exists parts, Forall2 (fun l part => fst (call K l w h) = Ok part) ls parts.
Proof.
  induction ls as [|l ls IH]; intros h' rp cp Hh Hok.
  - exists []. constructor.
  - cbn [call_loop] in Hok. unfold bind at 1 in Hok.
    destruct (call_sim K l w h h' Hh) as [Er Hh'].
    pose proof (call_heq K l w h) as Hself.
    destruct (call K l w h') as [[part|e] h''] eqn:Ecall; [|discriminate Hok].
    simpl in Er, Hh'.
    unfold bind at 1, lift in Hok. destruct (np_add rp part.1) as [rp'|]; [|discriminate Hok].
    unfold bind at 1 in Hok. destruct (np_add cp part.2) as [cp'|]; [|discriminate Hok].
    destruct (IH h'' rp' cp' (heq_trans _ _ _ Hself Hh') Hok) as [parts Hparts].
    exists (part :: parts). by constructor.
Qed.

(** C2. For a model whose counter equals the number of its lineshapes and
    a frequency array [w]: when the lineshapes, each called on [w], return
    the pairs [parts], the model called on [w] returns the pair of the
    elementwise sum of the real parts and of the elementwise sum of the
    imaginary parts; and whenever the model returns, its lineshapes have
    returned such pairs and the result is these two sums. *)
Theorem model_call_additive (K : Kernel) (m : SpectralModel) (w : list spec_float) (h : heap) :
  numlineshapes m = length (lineshapes m) ->
  (forall parts : list (list spec_float * list spec_float),
      Forall2 (fun l part => fst (call K l w h) = Ok part) (lineshapes m) parts ->
      fst (SpectralModel_call K m w h) =
      Ok (elementwise_sum (length w) parts.*1, elementwise_sum (length w) parts.*2)) /\
  (forall rp cp : list spec_float,
      fst (SpectralModel_call K m w h) = Ok (rp, cp) ->
      exists parts : list (list spec_float * list spec_float),
        Forall2 (fun l part => fst (call K l w h) = Ok part) (lineshapes m) parts /\
        rp = elementwise_sum (length w) parts.*1 /\
        cp = elementwise_sum (length w) parts.*2).
Proof.
  intros _.
  assert (Hfwd : forall parts : list (list spec_float * list spec_float),
             Forall2 (fun l part => fst (call K l w h) = Ok part) (lineshapes m) parts ->
             fst (SpectralModel_call K m w h) =
             Ok (elementwise_sum (length w) parts.*1, elementwise_sum (length w) parts.*2)).
  { intros parts Hparts. unfold SpectralModel_call.
    rewrite (call_loop_spec K w h _ parts Hparts h _ _ (heq_refl h))
      by apply length_replicate.
    assert (Hlen : Forall (same_length w) parts).
    { clear -Hparts. induction Hparts as [|l part ls parts Hl _ IH]; constructor; [|done].
      destruct (call K l w h) as [r h'] eqn:E. simpl in Hl. subst r.
      by apply (call_length K l w h part h'). }
    rewrite !fold_zip_with_sum; [done | |].
    - apply Forall_fmap. eapply Forall_impl; [exact Hlen|]. by intros ? [_ ?].
    - apply Forall_fmap. eapply Forall_impl; [exact Hlen|]. by intros ? [? _]. }
  split; [exact Hfwd|].
  intros rp cp E.
  destruct (call_loop_parts K w h (lineshapes m) h (zeros (length w)) (zeros (length w))
              (heq_refl h)) as [parts Hparts].
  { unfold SpectralModel_call in E. by rewrite E. }
  exists parts. split; [exact Hparts|].
  rewrite (Hfwd parts Hparts) in E. by injection E as <- <-.
Qed.

(** C2, witness: a [Debye] lineshape with parameters [1, 1] and a
    [constant] with parameter [1], at the frequencies 1.0 and 2.0. *)
Lemma model_call_additive_Debye_constant :
  fst (SpectralModel_call nan_kernel two_lineshapes [f1; f2] Debye_constant_store) =
  Ok (elementwise_sum 2 [fst (Debye_value f1 f1 [f1; f2]); [f1; f1]],
      elementwise_sum 2 [snd (Debye_value f1 f1 [f1; f2]); [f0; f0]]).
Proof.
  destruct (model_call_additive nan_kernel two_lineshapes [f1; f2] Debye_constant_store eq_refl)
    as [H _].
  apply (H [Debye_value f1 f1 [f1; f2]; ([f1; f1], [f0; f0])]).
  constructor; [vm_compute; reflexivity|].
  constructor; [vm_compute; reflexivity|]. constructor.
Defined.

(** ** C3: the cost function of [fit_model] *)





Lemma readonly_lineshape_at (m : SpectralModel) (i : nat) : readonly (lineshape_at m i).
Proof. unfold lineshape_at. readonly_tac. Qed.



(** The arrays the model returns have the length of [w]. *)
Lemma call_loop_length (K : Kernel) (w : list spec_float) (ls : list nat) :
  forall rp cp : list spec_float,
    length rp = length w -> length cp = length w ->
    returns (call_loop K ls w rp cp) (same_length w).
Proof.
  induction ls as [|l ls IH]; intros rp cp Hrp Hcp; cbn [call_loop].
  - apply returns_ret. by split.
  - intros h a h' E.
    apply bind_inv in E as (parts & h1 & Ecall & E).
    destruct (call_length K l w h parts h1 Ecall) as [L1 L2].
    revert E. unfold lift, np_add. unfold bind at 1.
    rewrite np_binop_same_length by congruence.
    unfold bind at 1. rewrite np_binop_same_length by congruence.
    apply IH; rewrite length_zip_with; lia.
Qed.

Lemma SpectralModel_call_length (K : Kernel) (m : SpectralModel) (w : list spec_float) :
  returns (SpectralModel_call K m w) (same_length w).
Proof.
  unfold SpectralModel_call.
  apply (call_loop_length K w (lineshapes m) (zeros (length w)) (zeros (length w)));
    apply length_replicate.
Qed.










(** ** C10: [gLST_LHS] with a lineshape of another type *)

Lemma returns_bind_post {A B : Type} (c : M A) (k : A -> M B) (Q : A -> Prop) (P : B -> Prop) :
  returns c Q -> (forall a, Q a -> returns (k a) P) -> returns (bind c k) P.
Proof.
  intros Hc Hk h b h' E. apply bind_inv in E as (a & h1 & Ec & E).
  eapply Hk; [by eapply Hc | exact E].
Qed.

Lemma returns_if {A : Type} (b : bool) (c1 c2 : M A) (P : A -> Prop) :
  returns c1 P -> returns c2 P -> returns (if b then c1 else c2) P.
Proof. by destruct b. Qed.

Lemma readonly_for_range {A : Type} (body : nat -> A -> M A) (rounds : nat) :
  (forall i acc, readonly (body i acc)) ->
  forall i acc, readonly (for_range body rounds i acc).
Proof.
  intros Hb. induction rounds as [|rounds IH]; intros i acc; simpl.
  - apply readonly_ret.
  - apply readonly_bind; [apply Hb | intros a; apply IH].
Qed.

Lemma readonly_gLST_body (modelL modelT : SpectralModel) (i : nat) (ratios : list spec_float) :
  readonly (gLST_body modelL modelT i ratios).
Proof.
  unfold gLST_body, type_is.
  repeat first [ apply readonly_lineshape_at | readonly_tac ].
Qed.

Lemma readonly_gLST_LHS (modelL modelT : SpectralModel) : readonly (gLST_LHS modelL modelT).
Proof.
  unfold gLST_LHS, gLST_ratios. destruct (decide _); [|apply readonly_raise].
  apply readonly_bind; [|intros; apply readonly_ret].
  apply readonly_for_range. intros. apply readonly_gLST_body.
Qed.

Lemma readonly_fsum (m : SpectralModel) : readonly (fsum m).
Proof.
  unfold fsum. apply readonly_for_range. intros i acc.
  repeat first [ apply readonly_lineshape_at | readonly_tac ].
Qed.

(** A round of the loop writes entry [i] of [ratios] at most. *)
Definition same_elsewhere (i : nat) (ratios r : list spec_float) : Prop :=
  length r = length ratios /\ forall j, j <> i -> r !! j = ratios !! j.

Lemma same_elsewhere_refl (i : nat) (ratios : list spec_float) : same_elsewhere i ratios ratios.
Proof. by split. Qed.

Lemma same_elsewhere_insert (i : nat) (ratios r : list spec_float) (x : spec_float) :
  same_elsewhere i ratios r -> same_elsewhere i ratios (<[i := x]> r).
Proof.
  intros [El Ho]. split; [by rewrite length_insert|].
  intros j Hj. rewrite list_lookup_insert_ne by done. by apply Ho.
Qed.

Lemma gLST_body_elsewhere (modelL modelT : SpectralModel) (i : nat) (ratios : list spec_float) :
  returns (gLST_body modelL modelT i ratios) (same_elsewhere i ratios).
Proof.
  unfold gLST_body.
  apply returns_bind; intros oL. apply returns_bind; intros isD.
  apply (returns_bind_post _ _ (same_elsewhere i ratios)).
  - apply returns_if; [|apply returns_ret, same_elsewhere_refl].
    do 3 (apply returns_bind; intros ?).
    apply returns_ret, same_elsewhere_insert, same_elsewhere_refl.
  - intros r Hr. do 3 (apply returns_bind; intros ?).
    apply returns_if; [|by apply returns_ret].
    do 4 (apply returns_bind; intros ?).
    by apply returns_ret, same_elsewhere_insert.
Qed.

(** The type of a lineshape is none of those [gLST_LHS] has a ratio for. *)
Definition unmatched_type (ty : string) : Prop :=
  ty <> "Debye" /\ ty <> "DHO" /\ ty <> "VanVleck" /\ ty <> "BrendelDHO".

Lemma gLST_body_unmatched (modelL modelT : SpectralModel) (i l : nat) (oL : Lineshape.t)
    (ty : string) (ratios : list spec_float) (h : heap) :
  lineshapes modelL !! i = Some l ->
  objs h !! l = Some oL ->
  Lineshape.type oL = Some ty ->
  unmatched_type ty ->
  gLST_body modelL modelT i ratios h = (Ok ratios, h).
Proof.
  intros El Eo Et (H1 & H2 & H3 & H4).
  apply String.eqb_neq in H1, H2, H3, H4.
  unfold gLST_body, lineshape_at, type_is, bind, lift, getitem, get_obj, attr, ret.
  rewrite El, Eo, Et. by rewrite H1, H2, H3, H4.
Qed.

(** Through the loop, the entry of such a lineshape keeps its value. *)
Lemma gLST_loop_unmatched (modelL modelT : SpectralModel) (i l : nat) (oL : Lineshape.t)
    (ty : string) (h : heap) :
  lineshapes modelL !! i = Some l ->
  objs h !! l = Some oL ->
  Lineshape.type oL = Some ty ->
  unmatched_type ty ->
  forall (rounds k : nat) (ratios r : list spec_float) (h' : heap),
    for_range (gLST_body modelL modelT) rounds k ratios h = (Ok r, h') ->
    h' = h /\ r !! i = ratios !! i.
Proof.
  intros El Eo Et Hty. induction rounds as [|rounds IH]; intros k ratios r h' E; simpl in E.
  - by injection E as <- <-.
  - apply bind_inv in E as (r1 & h1 & Eb & E).
    pose proof (readonly_gLST_body modelL modelT k ratios h) as Hh. rewrite Eb in Hh.
    simpl in Hh. subst h1.
    destruct (IH _ _ _ _ E) as [-> Er]. split; [done|]. rewrite Er.
    destruct (decide (k = i)) as [->|Hne].
    + rewrite (gLST_body_unmatched modelL modelT i l oL ty ratios h El Eo Et Hty) in Eb.
      by injection Eb as <-.
    + destruct (gLST_body_elsewhere modelL modelT k ratios h r1 h Eb) as [_ Ho].
      by apply Ho.
Qed.

Definition zero_or_nan (x : spec_float) : Prop := is_zero x = true \/ is_nan x = true.

Lemma fmul_zero_or_nan_l (x y : spec_float) : zero_or_nan x -> zero_or_nan (fmul x y).
Proof.
  intros [Hx|Hx]; destruct x; try discriminate; destruct y; simpl; unfold zero_or_nan; auto.
Qed.

Lemma fmul_zero_r (x y : spec_float) : is_zero y = true -> zero_or_nan (fmul x y).
Proof.
  intros Hy. destruct y; try discriminate. destruct x; simpl; unfold zero_or_nan; auto.
Qed.

Lemma fold_fmul_zero_or_nan (xs : list spec_float) (a : spec_float) :
  zero_or_nan a -> zero_or_nan (fold_left fmul xs a).
Proof.
  revert a. induction xs as [|x xs IH]; intros a Ha; simpl; [done|].
  by apply IH, fmul_zero_or_nan_l.
Qed.

Lemma fold_fmul_zero_finite (xs : list spec_float) (a : spec_float) :
  is_zero a = true -> Forall (fun x => is_finite x = true) xs ->
  is_zero (fold_left fmul xs a) = true.
Proof.
  revert a. induction xs as [|x xs IH]; intros a Ha Hx; simpl; [done|].
  apply Forall_cons in Hx as [Hx Hxs]. apply IH; [|done].
  destruct a; try discriminate. by destruct x.
Qed.

Lemma prod_split (xs : list spec_float) (i : nat) (z : spec_float) :
  xs !! i = Some z ->
  prod xs = fold_left fmul (drop (S i) xs) (fmul (prod (take i xs)) z).
Proof.
  intros E. unfold prod.
  rewrite <- (take_drop i xs) at 1. rewrite (drop_S xs z i E).
  by rewrite fold_left_app.
Qed.

(** A product with a zero factor is zero or NaN, and zero when the factors
    are finite and the product of those before the zero is finite. *)
Lemma prod_zero_entry (xs : list spec_float) (i : nat) (z : spec_float) :
  xs !! i = Some z -> is_zero z = true ->
  zero_or_nan (prod xs) /\
  (Forall (fun x => is_finite x = true) xs -> is_finite (prod (take i xs)) = true ->
   is_zero (prod xs) = true).
Proof.
  intros E Hz. rewrite (prod_split xs i z E). split.
  - by apply fold_fmul_zero_or_nan, fmul_zero_r.
  - intros Hfin Hpre. apply fold_fmul_zero_finite.
    + destruct z; try discriminate. by destruct (prod (take i xs)).
    + by apply Forall_drop.
Qed.

(** C10 (amended). When the counters of the two models are equal and some
    index [i] below the counter has a lineshape of [modelL] whose type is
    none of "Debye", "DHO", "VanVleck", "BrendelDHO", a [gLST_LHS] that
    returns leaves the store as it is, entry [i] of its array of ratios is
    its initial 0, and the value returned, the product of the ratios, is
    zero or NaN; it is zero when the ratios are finite and the product of
    those before [i] is finite. *)
Theorem gLST_LHS_unmatched (modelL modelT : SpectralModel) (h h' : heap) (i l : nat)
    (oL : Lineshape.t) (ty : string) (v : spec_float) :
  lineshapes modelL !! i = Some l ->
  i < numlineshapes modelL ->
  objs h !! l = Some oL ->
  Lineshape.type oL = Some ty ->
  unmatched_type ty ->
  gLST_LHS modelL modelT h = (Ok v, h') ->
  h' = h /\
  numlineshapes modelL = numlineshapes modelT /\
  exists ratios,
    gLST_ratios modelL modelT h = (Ok ratios, h) /\
    ratios !! i = Some f0 /\
    v = prod ratios /\
    zero_or_nan v /\
    (Forall (fun x => is_finite x = true) ratios ->
     is_finite (prod (take i ratios)) = true -> is_zero v = true).
Proof.
  intros El Hi Eo Et Hty E. unfold gLST_LHS in E.
  destruct (decide (numlineshapes modelL = numlineshapes modelT)) as [En|]; [|discriminate].
  apply bind_inv in E as (ratios & h1 & Er & E). injection E as <- <-.
  destruct (gLST_loop_unmatched modelL modelT i l oL ty h El Eo Et Hty _ _ _ _ _ Er) as [-> Ei].
  unfold zeros in Ei. rewrite lookup_replicate_2 in Ei by done.
  split; [done | split; [done|]]. exists ratios.
  destruct (prod_zero_entry ratios i f0 Ei eq_refl) as [Hzn Hz].
  by repeat split.
Qed.

(** C10, witness: the models of a [Debye] and a [constant] lineshape each,
    with the longitudinal parameters on both sides; the [constant] has
    index 1. *)
Lemma gLST_LHS_Debye_constant :
  exists ratios,
    gLST_ratios LT_modelL LT_modelL LT_store = (Ok ratios, LT_store) /\
    ratios !! 1 = Some f0 /\
    zero_or_nan f0.
Proof.
  destruct (gLST_LHS_unmatched LT_modelL LT_modelL LT_store LT_store 1 1
              (constant_init 1 [(f0, float_of_Z 10000)] "Eps float('inf')") "Constant" f0)
    as (_ & _ & ratios & Hr & Hi & _ & Hz & _).
  - reflexivity.
  - vm_compute. lia.
  - reflexivity.
  - reflexivity.
  - repeat split; discriminate.
  - vm_compute. reflexivity.
  - exists ratios. by repeat split.
Defined.

(** C10, counterexample.  First, the models [SpectralModel([constant()])]
    have equal counters, 0, and a lineshape of type "Constant" at index 0;
    [gLST_LHS] returns 1.0, the empty product.  Second, for the models built
    by [add] from a [Debye] and a [constant] each, whose transverse [Debye]
    has [p[1] = 0.0], the ratios are [inf, 0] and [gLST_LHS] returns NaN. *)
Lemma gLST_LHS_not_zero :
  (numlineshapes (SpectralModel_init [0]) = numlineshapes (SpectralModel_init [0]) /\
   lineshapes (SpectralModel_init [0]) !! 0 = Some 0 /\
   Lineshape.type <$> objs one_constant !! 0 = Some (Some "Constant") /\
   gLST_LHS (SpectralModel_init [0]) (SpectralModel_init [0]) one_constant = (Ok f1, one_constant) /\
   is_zero f1 = false) /\
  (numlineshapes LT_modelL = numlineshapes LT_modelT /\
   lineshapes LT_modelL !! 1 = Some 1 /\
   Lineshape.type <$> objs LT_store !! 1 = Some (Some "Constant") /\
   gLST_ratios LT_modelL LT_modelT LT_store = (Ok [finf; f0], LT_store) /\
   gLST_LHS LT_modelL LT_modelT LT_store = (Ok S754_nan, LT_store) /\
   is_zero S754_nan = false).
Proof.
  split.
  - repeat split; vm_compute; reflexivity.
  - repeat split; vm_compute; reflexivity.
Qed.

(** ** C1: the cost function of [fit_model_gLST_constraint] *)

Lemma readonly_gLST_penalties (modelL modelT : SpectralModel) (Tdatarp : list spec_float) :
  readonly (gLST_penalties modelL modelT Tdatarp).
Proof.
  unfold gLST_penalties.
  repeat first [ apply readonly_fsum | apply readonly_gLST_LHS | readonly_tac ].
Qed.

(** C1 (as the code has it). Whatever the two penalties are, when they can
    be computed the cost function returns [diffsq(paramsL, paramsT)], the
    sum of the squared residuals, alone: no multiple of the gLST penalty is
    added. *)
Theorem gLST_costfun_is_diffsq (K : Kernel) (modelL modelT : SpectralModel)
    (dataX Tdatarp Tdatacp Ldatarp Ldatacp params : list spec_float)
    (h h1 : heap) (penalties : spec_float * spec_float) :
  gLST_penalties modelL modelT Tdatarp h = (Ok penalties, h1) ->
  gLST_costfun K modelL modelT dataX Tdatarp Tdatacp Ldatarp Ldatacp params h =
  gLST_diffsq K modelL modelT dataX Tdatarp Tdatacp Ldatarp Ldatacp
    (take (length params / 2) params) (drop (length params / 2) params) h.
Proof.
  intros Ep. pose proof (readonly_gLST_penalties modelL modelT Tdatarp h) as Hh.
  rewrite Ep in Hh. simpl in Hh. subst h1.
  unfold gLST_costfun, bind at 1. by rewrite Ep.
Qed.

(** C1, witness: a longitudinal [Debye] with parameters [1, 2], a
    transverse [Debye] with parameters [1, 1], the data point
    (1.0, 0.5, 0.5) and the parameters [1, 2, 1, 1]. *)
Lemma gLST_costfun_is_diffsq_Debye :
  gLST_costfun nan_kernel model_of_0 model_of_1 [f1] [fhalf] [fhalf] [f1] [f1]
    [f1; f2; f1; f1] Debye_LT_store =
  gLST_diffsq nan_kernel model_of_0 model_of_1 [f1] [fhalf] [fhalf] [f1] [f1]
    [f1; f2] [f1; f1] Debye_LT_store.
Proof.
  exact (gLST_costfun_is_diffsq nan_kernel model_of_0 model_of_1 [f1] [fhalf] [fhalf] [f1] [f1]
           [f1; f2; f1; f1] Debye_LT_store Debye_LT_store (f4, f1) eq_refl).
Defined.

(** C1, at the failing inputs.  For the two [Debye] models above the
    longitudinal data are (1.0, 1.0), [gLST_LHS] is 2, [eps0/eps_inf] is 1 and
    the gLST penalty is 1.0; the cost function returns the squared residuals
    [v], and [v + 50*1.0] is another number.  For a longitudinal
    [constant] 1 and a transverse [constant] 2 on the data point
    (1.0, 1.0, 1.0) the gLST penalty is 1.0 again and the cost function
    returns 0.0: the residuals plus [c] times the penalty differ from it for
    every [c] whose product with 1.0 is not zero, such as 50. *)
Lemma gLST_costfun_adds_no_penalty :
  (Ldata [fhalf] [fhalf] = Ok ([f1], [f1]) /\
   fst (gLST_LHS model_of_0 model_of_1 Debye_LT_store) = Ok f2 /\
   fst (gLST_penalties model_of_0 model_of_1 [fhalf] Debye_LT_store) = Ok (f4, f1) /\
   forall K : Kernel,
     exists v,
       fst (gLST_costfun K model_of_0 model_of_1 [f1] [fhalf] [fhalf] [f1] [f1]
              [f1; f2; f1; f1] Debye_LT_store) = Ok v /\
       fst (gLST_diffsq K model_of_0 model_of_1 [f1] [fhalf] [fhalf] [f1] [f1]
              [f1; f2] [f1; f1] Debye_LT_store) = Ok v /\
       fadd v (fmul f50 f1) <> v) /\
  (Ldata [f1] [f1] = Ok ([fhalf], [fhalf]) /\
   fst (gLST_LHS model_of_0 model_of_1 constant_LT_store) = Ok f0 /\
   fst (gLST_penalties model_of_0 model_of_1 [f1] constant_LT_store) = Ok (f4, f1) /\
   (forall K : Kernel,
       fst (gLST_costfun K model_of_0 model_of_1 [f1] [f1] [f1] [fhalf] [fhalf]
              [f1; f2] constant_LT_store) = Ok f0 /\
       fst (gLST_diffsq K model_of_0 model_of_1 [f1] [f1] [f1] [fhalf] [fhalf]
              [f1] [f2] constant_LT_store) = Ok f0) /\
   (forall c : spec_float, is_zero (fmul c f1) = false -> fadd f0 (fmul c f1) <> f0) /\
   is_zero (fmul f50 f1) = false).
Proof.
  split.
  - split; [vm_compute; reflexivity|]. split; [vm_compute; reflexivity|].
    split; [vm_compute; reflexivity|]. intros K.
    exists (S754_finite false 5764607523034234 (-53)).
    split; [vm_compute; reflexivity|]. split; [vm_compute; reflexivity|].
    intros E. vm_compute in E. discriminate E.
  - split; [vm_compute; reflexivity|]. split; [vm_compute; reflexivity|].
    split; [vm_compute; reflexivity|].
    split; [intros K; split; vm_compute; reflexivity|].
    split; [|vm_compute; reflexivity].
    intros c Hc E. destruct (fmul c f1); simpl in *; discriminate.
Qed.

(** ** C7: the rows of [chikw] *)

Module KwProps.
Import Kw.

Lemma fill_length (g : nat -> spec_float * spec_float) (idxs : list nat) :
  forall temp : list (spec_float * spec_float),
    length (fold_left (fun temp i => <[i - 1 := g i]> temp) idxs temp) = length temp.
Proof.
  induction idxs as [|i idxs IH]; intros temp; simpl; [done|].
  by rewrite IH, length_insert.
Qed.

(** The loop [for i in xrange(1, n+1): temp[i-1] = g(i)]: entry [j] holds
    [g(j+1)] for [j < n], and what it held before otherwise. *)
Lemma fill_lookup (g : nat -> spec_float * spec_float) (n : nat) :
  forall (temp : list (spec_float * spec_float)) (j : nat),
    j < length temp ->
    fold_left (fun temp i => <[i - 1 := g i]> temp) (seq 1 n) temp !! j =
    if decide (j < n) then Some (g (S j)) else temp !! j.
Proof.
  induction n as [|n IH]; intros temp j Hj.
  - simpl. by destruct (decide (j < 0)); [lia|].
  - rewrite seq_S, fold_left_app. simpl. rewrite Nat.sub_0_r.
    destruct (decide (j = n)) as [->|Hne].
    + rewrite list_lookup_insert_eq.
      * by destruct (decide (n < S n)); [|lia].
      * by rewrite fill_length.
    + rewrite list_lookup_insert_ne by done. rewrite IH by done.
      destruct (decide (j < n)), (decide (j < S n)); try lia; done.
Qed.

Lemma block_average_lookup (N : Numpy) (y : list (spec_float * spec_float)) (num_avg_over : nat)
    (temp : list (spec_float * spec_float)) (j : nat) :
  j < length temp ->
  block_average N y num_avg_over temp !! j =
  if decide (j < num_points - 1 - 1)
  then Some (to_complex64 N (block_mean N y num_avg_over (S j)))
  else temp !! j.
Proof.
  intros Hj. unfold block_average.
  exact (fill_lookup (fun i => to_complex64 N (block_mean N y num_avg_over i)) _ temp j Hj).
Qed.

Lemma block_average_length (N : Numpy) (y : list (spec_float * spec_float)) (num_avg_over : nat)
    (temp : list (spec_float * spec_float)) :
  length (block_average N y num_avg_over temp) = length temp.
Proof.
  unfold block_average.
  exact (fill_length (fun i => to_complex64 N (block_mean N y num_avg_over i)) _ temp).
Qed.

(** The entries of [temp] past the loop's range stay zero from one round
    of the loop over [k] to the next. *)
Definition tail_zero (temp : list (spec_float * spec_float)) : Prop :=
  length temp = num_points /\
  forall j, num_points - 1 - 1 <= j -> j < num_points -> temp !! j = Some (f0, f0).

Lemma tail_zero_init : tail_zero (replicate num_points (f0, f0)).
Proof.
  split; [apply length_replicate|]. intros j _ Hj. by apply lookup_replicate_2.
Qed.

Lemma tail_zero_next (N : Numpy) (corr : list spec_float) (timestep : spec_float)
    (nextpow2 num_avg_over : nat) (temp : list (spec_float * spec_float)) :
  tail_zero temp -> tail_zero (next_temp N corr timestep nextpow2 num_avg_over temp).
Proof.
  intros [Hl Hz]. unfold next_temp. split; [by rewrite block_average_length|].
  intros j Hj1 Hj2. rewrite block_average_lookup by lia.
  destruct (decide (j < num_points - 1 - 1)); [lia|]. by apply Hz.
Qed.

(** The columns the loop over [k] appends. *)
Lemma k_loop_columns (N : Numpy) (chik0 : list spec_float) (timestep : spec_float)
    (nextpow2 num_avg_over : nat) (corr_funs : list (list spec_float)) :
  forall (k : nat) (temp : list (spec_float * spec_float))
         (done_cols cols : list (list spec_float)),
    tail_zero temp ->
    k_loop N corr_funs k chik0 timestep nextpow2 num_avg_over temp done_cols = Ok cols ->
    length cols = length done_cols + length corr_funs /\
    forall (n : nat) (corr : list spec_float),
      corr_funs !! n = Some corr ->
      exists (c : spec_float) (col : list spec_float),
        chik0 !! (k + n) = Some c /\
        cols !! (length done_cols + n) = Some col /\
        length col = num_points /\
        (forall j, j < num_points - 1 - 1 ->
                   col !! j = Some (chikw_spec_entry N corr timestep c nextpow2 num_avg_over j)) /\
        (forall j, num_points - 1 - 1 <= j -> j < num_points ->
                   col !! j = Some (mul32 N (fopp c) f0)).
Proof.
  induction corr_funs as [|corr rest IH]; intros k temp done_cols cols Htz E; cbn [k_loop] in E.
  - injection E as <-. split; [simpl; lia|]. intros n corr' En. discriminate En.
  - unfold rbind, getitem in E. destruct (chik0 !! k) as [c|] eqn:Ec; [|discriminate].
    set (temp' := next_temp N corr timestep nextpow2 num_avg_over temp) in *.
    pose proof (tail_zero_next N corr timestep nextpow2 num_avg_over temp Htz) as Htz'.
    fold temp' in Htz'.
    destruct (IH (S k) temp' _ cols Htz' E) as [Hlen Hcols].
    rewrite length_app in Hlen. cbn [length] in Hlen.
    split; [cbn [length]; lia|].
    intros [|n] corr' En; simpl in En.
    + injection En as <-. exists c, (column_of N c temp').
      rewrite !Nat.add_0_r. split; [done|].
      assert (Hpre : forall (rest' : list (list spec_float)) k' t' d' cols',
                 k_loop N rest' k' chik0 timestep nextpow2 num_avg_over t' d' = Ok cols' ->
                 forall i x, d' !! i = Some x -> cols' !! i = Some x).
      { clear. induction rest' as [|c' rest' IH']; intros k' t' d' cols' E' i x Hi; cbn [k_loop] in E'.
        - by injection E' as <-.
        - unfold rbind in E'. destruct (getitem chik0 k'); [|discriminate].
          apply (IH' _ _ _ _ E'). by apply lookup_app_l_Some. }
      split.
      { apply (Hpre _ _ _ _ _ E). rewrite lookup_app_r by lia.
        by rewrite Nat.sub_diag. }
      destruct Htz' as [Hl' Hz']. unfold column_of.
      split; [by rewrite length_map|]. split.
      * intros j Hj. rewrite list_lookup_fmap. unfold temp', next_temp.
        rewrite block_average_lookup by (destruct Htz as [-> _]; lia).
        destruct (decide (j < num_points - 1 - 1)); [|lia]. done.
      * intros j Hj1 Hj2. rewrite list_lookup_fmap, (Hz' j Hj1 Hj2). done.
    + destruct (Hcols n corr' En) as (c' & col & Hc' & Hcol & Hrest).
      exists c', col. rewrite length_app in Hcol. simpl in Hcol.
      split; [by rewrite <- Nat.add_succ_comm|].
      split; [|done]. rewrite <- Hcol. f_equal. lia.
Qed.

(** C7 (as the code has it). When the script fills [chikw], the column of
    each correlation function has [num_points] rows; its rows below
    [num_points - 2] hold minus [chik0[k]] times the imaginary part of the
    block averages the claim describes, and its last two rows hold minus
    [chik0[k]] times 0.0: the loop over the blocks stops two short of
    [num_points]. *)
Theorem chikw_rows (N : Numpy) (times_ps : list spec_float) (corr_funs : list (list spec_float))
    (chik0 : list spec_float) (cols : list (list spec_float)) :
  chikw N times_ps corr_funs chik0 = Ok cols ->
  exists timestep : spec_float,
    length cols = length corr_funs /\
    forall (k : nat) (corr : list spec_float),
      corr_funs !! k = Some corr ->
      exists (c : spec_float) (col : list spec_float),
        chik0 !! k = Some c /\
        cols !! k = Some col /\
        length col = num_points /\
        (forall j, j < num_points - 2 ->
                   col !! j = Some (chikw_spec_entry N corr timestep c
                                      (nextpow2_of N (length times_ps))
                                      (length times_ps / num_points) j)) /\
        col !! (num_points - 2) = Some (mul32 N (fopp c) f0) /\
        col !! (num_points - 1) = Some (mul32 N (fopp c) f0).
Proof.
  unfold chikw, rbind. intros E.
  destruct (getitem times_ps 1) as [t1|]; [|discriminate].
  destruct (getitem times_ps 0) as [t0|]; [|discriminate].
  exists (fsub t1 t0).
  destruct (k_loop_columns N chik0 (fsub t1 t0) _ _ corr_funs 0 _ [] cols tail_zero_init E)
    as [Hlen Hcols].
  split; [exact Hlen|]. intros k corr Ek.
  destruct (Hcols k corr Ek) as (c & col & Hc & Hcol & Hl & Hlow & Hhigh).
  exists c, col. simpl in Hc, Hcol.
  split; [done | split; [done | split; [done | split; [|split]]]].
  - intros j Hj. apply Hlow. unfold num_points in *. lia.
  - apply Hhigh; unfold num_points; lia.
  - apply Hhigh; unfold num_points; lia.
Qed.

(** C7, witness and failing input: a data file of two rows (times 0.0 and
    1.0, one correlation function with values 1.0 and 0.5) and
    [chik0 = [2.0]].  The column has 1000 rows; the last two are
    [-2.0*0.0]. *)
Lemma chikw_rows_two_row_file :
  exists cols col,
    chikw two_row_numpy [f0; f1] [[f1; fhalf]] [f2] = Ok cols /\
    cols !! 0 = Some col /\
    length col = num_points /\
    col !! 998 = Some (S754_zero true) /\
    col !! 999 = Some (S754_zero true).
Proof.
  destruct (chikw two_row_numpy [f0; f1] [[f1; fhalf]] [f2]) as [cols|e] eqn:E;
    [|vm_compute in E; discriminate E].
  destruct (chikw_rows two_row_numpy [f0; f1] [[f1; fhalf]] [f2] cols E)
    as (timestep & _ & Hcols).
  destruct (Hcols 0 [f1; fhalf] eq_refl) as (c & col & Hc & Hcol & Hlen & _ & H998 & H999).
  injection Hc as <-.
  exists cols, col. split; [reflexivity|]. split; [exact Hcol|]. split; [exact Hlen|].
  split; [exact H998 | exact H999].
Defined.

(** At that input, row 998 as the claim describes it is the block average
    of an empty block, NaN, and not the [-0.0] the script stores. *)
Lemma chikw_spec_entry_two_row_file :
  chikw_spec_entry two_row_numpy [f1; fhalf] f1 f2 2 0 998 = S754_nan.
Proof. vm_compute. reflexivity. Qed.

End KwProps.

(** * Further properties of the code *)

(** ** Which lineshape calls return *)







Lemma StretchedExp_call_never (K : Kernel) (o : Lineshape.t) (w : list spec_float) :
  returns (StretchedExp_call K o w) (fun _ => False).
Proof.
  unfold StretchedExp_call, StretchedExp_calc_eps. apply returns_bind_left.
  do 6 (apply returns_bind; intros ?). apply returns_bind_left, returns_raise.
Qed.

(** [StretchedExp.__call__] returns on no input: every call raises (at the
    latest the [NameError] of the undefined [ifft]) and leaves the store as
    it is. *)
Theorem StretchedExp_never_returns (K : Kernel) (l : nat) (o : Lineshape.t) (w : list spec_float) (h : heap) :
  objs h !! l = Some o ->
  Lineshape.cls o = StretchedExp ->
  is_ok (fst (call K l w h)) = false /\ snd (call K l w h) = h.
Proof.
  intros Eo Ec. rewrite (call_unfold K l w h o Eo), Ec. split.
  - destruct (StretchedExp_call K o w h) as [[a|e] h'] eqn:E; [|done].
    destruct (StretchedExp_call_never K o w h a h' E).
  - apply readonly_StretchedExp_call.
Qed.

(** Witness: [StretchedExp()] with its default parameters [1, 1, 1]. *)
Lemma StretchedExp_default_never_returns :
  is_ok (fst (call nan_kernel 0 [f1; f2]
                (one_lineshape (StretchedExp_init 0 [] "Str exp") [f1; f1; f1]))) = false /\
  snd (call nan_kernel 0 [f1; f2] (one_lineshape (StretchedExp_init 0 [] "Str exp") [f1; f1; f1])) =
  one_lineshape (StretchedExp_init 0 [] "Str exp") [f1; f1; f1].
Proof.
  apply (StretchedExp_never_returns nan_kernel 0 (StretchedExp_init 0 [] "Str exp")); reflexivity.
Defined.



(** ** The values of [constant] *)

Lemma constant_rp_entry (wi p0 : spec_float) :
  is_finite wi = true -> is_zero p0 = false -> fadd (fmul f0 wi) p0 = p0.
Proof. intros Hw Hp. destruct wi; try discriminate; destruct p0; try discriminate; reflexivity. Qed.

Lemma constant_cp_entry (wi : spec_float) :
  is_finite wi = true -> is_zero (fmul f0 wi) = true.
Proof. intros Hw. by destruct wi. Qed.

(** A [constant] lineshape with a non-zero parameter [p[0]] returns, at
    finite frequencies, the real part [p[0]] at every frequency and an
    imaginary part of zeros. *)
Theorem constant_call_value (K : Kernel) (l : nat) (o : Lineshape.t) (h : heap)
    (xs w : list spec_float) (p0 : spec_float) :
  objs h !! l = Some o ->
  Lineshape.cls o = constant ->
  lists h !! Lineshape.p o = Some xs ->
  xs !! 0 = Some p0 ->
  is_zero p0 = false ->
  Forall (fun wi => is_finite wi = true) w ->
  exists cp, call K l w h = (Ok (replicate (length w) p0, cp), h) /\
             length cp = length w /\
             Forall (fun x => is_zero x = true) cp.
Proof.
  intros Eo Ec Ep E0 Hp Hw. rewrite (call_unfold K l w h o Eo), Ec.
  unfold constant_call. rewrite bind_param, Ep, E0.
  exists (map (fun wi => fmul f0 wi) w). split; [|split].
  - unfold ret. f_equal. f_equal. f_equal.
    induction Hw as [|wi w Hwi Hw IH]; [done|]. cbn [map length replicate].
    by rewrite IH, constant_rp_entry.
  - by rewrite length_map.
  - induction Hw as [|wi w Hwi Hw IH]; constructor; [by apply constant_cp_entry | done].
Qed.

(** Witness: the [constant] 1 at the frequencies 1.0 and 2.0. *)
Lemma constant_call_value_one :
  exists cp, call nan_kernel 0 [f1; f2] one_constant = (Ok ([f1; f1], cp), one_constant) /\
             length cp = 2 /\
             Forall (fun x => is_zero x = true) cp.
Proof.
  apply (constant_call_value nan_kernel 0
           (constant_init 0 [(f0, float_of_Z 10000)] "Eps float('inf')") one_constant [f1] [f1; f2] f1);
    try reflexivity.
  repeat constructor.
Defined.

(** ** What [setparams] reads and writes *)

(** The list objects the lineshapes of a list hold as their [p]. *)
Definition plocs (h : heap) (ls : list nat) : list nat :=
  omap (fun l => Lineshape.p <$> objs h !! l) ls.

(** The store after a computation has the objects of the store before, and
    lists of the same lengths; the lists outside [touched] are the same. *)
Definition store_frame (touched : list nat) (h h' : heap) : Prop :=
  objs h' = objs h /\
  (forall pl, pl ∉ touched -> lists h' !! pl = lists h !! pl) /\
  (forall pl, length <$> lists h' !! pl = length <$> lists h !! pl).

Lemma store_frame_refl (touched : list nat) (h : heap) : store_frame touched h h.
Proof. by repeat split. Qed.

Lemma store_frame_trans (t1 t2 : list nat) (h1 h2 h3 : heap) :
  store_frame t1 h1 h2 -> store_frame t2 h2 h3 ->
  (forall pl, pl ∈ t1 \/ pl ∈ t2 -> pl ∈ t1 ++ t2) ->
  store_frame (t1 ++ t2) h1 h3.
Proof.
  intros (O1 & L1 & N1) (O2 & L2 & N2) _. split; [congruence|]. split.
  - intros pl Hpl. apply not_elem_of_app in Hpl as [H1 H2]. rewrite L2, L1; done.
  - intros pl. by rewrite N2, N1.
Qed.

Lemma setparams_inner_frame (pl : nat) (params : list spec_float) (rounds : nat) :
  forall (j i : nat) (h : heap),
    store_frame [pl] h (snd (setparams_inner pl params rounds j i h)).
Proof.
  induction rounds as [|rounds IH]; intros j i h; cbn [setparams_inner].
  - apply store_frame_refl.
  - unfold bind at 1, lift. destruct (getitem params i) as [v|]; [|apply store_frame_refl].
    unfold bind at 1, set_item.
    destruct (lists h !! pl) as [xs|] eqn:Exs; [|apply store_frame_refl].
    destruct (decide (j < length xs)); [|apply store_frame_refl].
    destruct (IH (S j) (S i) (Heap (<[pl := <[j := v]> xs]> (lists h)) (objs h)))
      as (O & L & N).
    split; [exact O|]. split.
    + intros pl' Hpl'. rewrite (L pl' Hpl'). cbn [lists].
      apply lookup_insert_ne. intros ->. apply Hpl'. by left.
    + intros pl'. rewrite N. cbn [lists].
      destruct (decide (pl = pl')) as [<-|Hne].
      * rewrite lookup_insert_eq, Exs. cbn. by rewrite length_insert.
      * by rewrite lookup_insert_ne.
Qed.

Lemma plocs_objs (h h' : heap) (ls : list nat) : objs h' = objs h -> plocs h' ls = plocs h ls.
Proof. intros E. unfold plocs. by rewrite E. Qed.

Lemma setparams_loop_frame (params : list spec_float) (ls : list nat) :
  forall (i : nat) (h : heap),
    store_frame (plocs h ls) h (snd (setparams_loop ls params i h)).
Proof.
  induction ls as [|l ls IH]; intros i h; cbn [setparams_loop].
  - apply store_frame_refl.
  - unfold bind at 1, get_obj. destruct (objs h !! l) as [o|] eqn:Eo; [|apply store_frame_refl].
    unfold bind at 1, get_list.
    destruct (lists h !! Lineshape.p o) as [xs|]; [|apply store_frame_refl].
    unfold bind at 1.
    pose proof (setparams_inner_frame (Lineshape.p o) params (length xs) 0 i h) as Hin.
    assert (Ep : plocs h (l :: ls) = Lineshape.p o :: plocs h ls).
    { unfold plocs. cbn [omap list_omap]. by rewrite Eo. }
    rewrite Ep.
    destruct (setparams_inner (Lineshape.p o) params (length xs) 0 i h) as [[i'|e] h1];
      cbn [snd] in Hin.
    + pose proof (IH i' h1) as Hl. rewrite (plocs_objs h h1 ls (proj1 Hin)) in Hl.
      exact (store_frame_trans [Lineshape.p o] (plocs h ls) h h1 _ Hin Hl
               (fun pl H => proj2 (elem_of_app _ _ _) H)).
    + destruct Hin as (O & L & N). split; [done|]. split; [|done].
      intros pl Hpl. apply L. intros Hin'. apply Hpl.
      apply list_elem_of_singleton in Hin'. subst pl. by left.
Qed.

(** [setparams], whether it returns or raises, changes no attribute of any
    object and the length of no list, and leaves every list that no
    lineshape of the model holds as its [p] as it is. *)
Theorem setparams_frame (m : SpectralModel) (params : list spec_float) (h : heap) :
  objs (snd (setparams m params h)) = objs h /\
  (forall pl, pl ∉ plocs h (lineshapes m) ->
              lists (snd (setparams m params h)) !! pl = lists h !! pl) /\
  (forall pl, length <$> lists (snd (setparams m params h)) !! pl = length <$> lists h !! pl).
Proof.
  pose proof (setparams_loop_frame params (lineshapes m) 0 h) as H.
  unfold setparams, bind.
  by destruct (setparams_loop (lineshapes m) params 0 h) as [[i|e] h'].
Qed.

Lemma param_lists_lengths (h h1 : heap) (ls : list nat) :
  objs h1 = objs h ->
  (forall pl, length <$> lists h1 !! pl = length <$> lists h !! pl) ->
  forall r, param_lists h ls = Some r ->
  exists r1, param_lists h1 ls = Some r1 /\
             length (concat r1.*2) = length (concat r.*2) /\ r1.*1 = r.*1.
Proof.
  intros Eo Hn. induction ls as [|l ls IH]; intros r Hr; cbn [param_lists] in *.
  - injection Hr as <-. by exists [].
  - rewrite Eo. destruct (objs h !! l) as [o|]; [|done].
    destruct (lists h !! Lineshape.p o) as [xs|] eqn:Exs; [|done].
    destruct (param_lists h ls) as [r0|]; [|done]. injection Hr as <-.
    destruct (IH r0 eq_refl) as (r1 & -> & Hlen & Hfst).
    pose proof (Hn (Lineshape.p o)) as Hx. rewrite Exs in Hx.
    destruct (lists h1 !! Lineshape.p o) as [xs1|]; [|done].
    exists ((Lineshape.p o, xs1) :: r1). split; [done|].
    change (concat ((Lineshape.p o, xs1) :: r1).*2) with (xs1 ++ concat r1.*2).
    change (concat ((Lineshape.p o, xs) :: r0).*2) with (xs ++ concat r0.*2).
    change (((Lineshape.p o, xs1) :: r1).*1) with (Lineshape.p o :: r1.*1).
    change (((Lineshape.p o, xs) :: r0).*1) with (Lineshape.p o :: r0.*1).
    rewrite !length_app, Hlen, Hfst. injection Hx as ->. done.
Qed.

Lemma setparams_inner_short (pl : nat) (params : list spec_float) (rounds : nat) :
  forall (j i : nat) (xs : list spec_float) (h : heap),
    lists h !! pl = Some xs ->
    j + rounds <= length xs ->
    i <= length params ->
    length params < i + rounds ->
    fst (setparams_inner pl params rounds j i h) = Raise IndexError.
Proof.
  induction rounds as [|rounds IH]; intros j i xs h Exs Hj Hi0 Hi; [lia|].
  cbn [setparams_inner]. unfold bind at 1, lift, getitem.
  destruct (params !! i) as [v|] eqn:Ev; [|done].
  unfold bind at 1, set_item. rewrite Exs.
  destruct (decide (j < length xs)); [|lia].
  apply lookup_lt_Some in Ev.
  apply (IH (S j) (S i) (<[j := v]> xs)).
  - cbn [lists]. by rewrite lookup_insert_eq.
  - rewrite length_insert. lia.
  - lia.
  - lia.
Qed.

Lemma setparams_loop_short (params : list spec_float) (ls : list nat) :
  forall (h : heap) (r : list (nat * list spec_float)) (i : nat),
    param_lists h ls = Some r ->
    i <= length params ->
    length params < i + length (concat r.*2) ->
    fst (setparams_loop ls params i h) = Raise IndexError.
Proof.
  induction ls as [|l ls IH]; intros h r i Hr Hi Hlen; cbn [param_lists] in Hr.
  - injection Hr as <-. cbn in Hlen. lia.
  - destruct (objs h !! l) as [o|] eqn:Eo; [|done].
    destruct (lists h !! Lineshape.p o) as [xs|] eqn:Exs; [|done].
    destruct (param_lists h ls) as [r0|] eqn:Er0; [|done].
    injection Hr as <-.
    change (concat ((Lineshape.p o, xs) :: r0).*2) with (xs ++ concat r0.*2) in Hlen.
    rewrite length_app in Hlen.
    cbn [setparams_loop].
    unfold bind at 1, get_obj. rewrite Eo.
    unfold bind at 1, get_list. rewrite Exs.
    unfold bind at 1.
    destruct (decide (length params < i + length xs)) as [Hshort|Hok].
    + pose proof (setparams_inner_short (Lineshape.p o) params (length xs) 0 i xs h Exs
                    ltac:(lia) Hi Hshort) as Hin.
      by destruct (setparams_inner (Lineshape.p o) params (length xs) 0 i h) as [[?|?] ?];
        cbn [fst] in Hin; [discriminate|].
    + pose proof (setparams_inner_frame (Lineshape.p o) params (length xs) 0 i h) as (O & _ & N).
      rewrite (setparams_inner_spec (Lineshape.p o) params (length xs) 0 i xs h Exs eq_refl
                 ltac:(lia)) in *.
      cbn [snd] in O, N.
      destruct (param_lists_lengths h _ ls O N r0 Er0) as (r1 & Hr1 & Hl1 & _).
      apply (IH _ r1 (i + length xs) Hr1); lia.
Qed.

(** [setparams] given fewer values than the parameter lists of the model
    hold in total raises [IndexError]. *)
Theorem setparams_too_few (m : SpectralModel) (h : heap) (r : list (nat * list spec_float))
    (params : list spec_float) :
  param_lists h (lineshapes m) = Some r ->
  length params < length (concat r.*2) ->
  fst (setparams m params h) = Raise IndexError.
Proof.
  intros Hr Hlen. unfold setparams, bind.
  pose proof (setparams_loop_short params (lineshapes m) h r 0 Hr ltac:(lia) ltac:(lia)) as H.
  by destruct (setparams_loop (lineshapes m) params 0 h) as [[?|?] ?];
    cbn [fst] in H; [discriminate|injection H as ->].
Qed.

(** Witness: one [Debye] lineshape, two parameters, and one value. *)
Lemma setparams_too_few_one_Debye :
  fst (setparams model_of_0 [f2] one_Debye) = Raise IndexError.
Proof.
  apply (setparams_too_few model_of_0 one_Debye [(0, [f1; f1])] [f2]).
  - reflexivity.
  - cbn. lia.
Defined.

(** [setparams] given more values than the parameter lists hold (distinct
    list objects, [n] entries in total) stores the first [n] and ignores the
    rest: [getparams] then returns the first [n] values. *)
Theorem setparams_uses_first (m : SpectralModel) (h : heap) (r : list (nat * list spec_float))
    (params : list spec_float) :
  param_lists h (lineshapes m) = Some r ->
  NoDup r.*1 ->
  length (concat r.*2) <= length params ->
  exists h', setparams m params h = (Ok tt, h') /\
             getparams m h' = (Ok (take (length (concat r.*2)) params), h').
Proof.
  intros Hr Hnd Hlen.
  destruct (setparams_loop_spec params (lineshapes m) h r 0 Hr Hnd ltac:(lia))
    as (h' & r' & Hloop & _ & _ & Hr' & Hc).
  exists h'. split.
  - unfold setparams, bind. by rewrite Hloop.
  - unfold getparams. by rewrite getparams_loop_spec, Hr', app_nil_l, Hc, drop_0.
Qed.

(** Witness: one [Debye] lineshape and three values. *)
Lemma setparams_uses_first_one_Debye :
  exists h', setparams model_of_0 [f2; f3; f4] one_Debye = (Ok tt, h') /\
             getparams model_of_0 h' = (Ok [f2; f3], h').
Proof.
  apply (setparams_uses_first model_of_0 one_Debye [(0, [f1; f1])] [f2; f3; f4]).
  - reflexivity.
  - apply NoDup_singleton.
  - cbn. lia.
Defined.

(** ** The cost function and the stored parameters *)

Lemma lift_inv {A : Type} (r : res A) (h h' : heap) (a : A) :
  lift r h = (Ok a, h') -> r = Ok a /\ h' = h.
Proof. unfold lift. by intros [= -> ->]. Qed.

(** A [diffsq] that returns has stored the parameters and evaluated the
    model; the store it leaves is the one the evaluation left. *)
Lemma fit_model_diffsq_inv (K : Kernel) (m : SpectralModel)
    (dataX datarp datacp params : list spec_float) (h h2 : heap) (d : spec_float) :
  fit_model_diffsq K m dataX datarp datacp params h = (Ok d, h2) ->
  exists h1 rc, setparams m params h = (Ok tt, h1) /\
                SpectralModel_call K m dataX h1 = (Ok rc, h2).
Proof.
  unfold fit_model_diffsq. intros E.
  apply bind_inv in E as ([] & h1 & Eset & E).
  apply bind_inv in E as (rc & h2' & Ecall & E).
  exists h1, rc. split; [done|].
  repeat (apply bind_inv in E as (? & ? & [_ ->]%lift_inv & E)).
  by injection E as _ <-.
Qed.

Lemma fit_model_costfun_inv (K : Kernel) (m : SpectralModel)
    (dataX datarp datacp params : list spec_float) (h h2 : heap) (v : spec_float) :
  fit_model_costfun K m dataX datarp datacp params h = (Ok v, h2) ->
  exists d, fit_model_diffsq K m dataX datarp datacp params h = (Ok d, h2).
Proof.
  unfold fit_model_costfun. intros E.
  apply bind_inv in E as (d & h1 & Ed & E). exists d.
  apply bind_inv in E as (? & ? & [_ ->]%lift_inv & E).
  apply bind_inv in E as (s & hs & Es & E).
  pose proof (readonly_fsum m h1) as Hs. rewrite Es in Hs. cbn [snd] in Hs. subst hs.
  apply bind_inv in E as (? & ? & [_ ->]%lift_inv & E).
  by injection E as _ <-.
Qed.

Lemma call_loop_heq (K : Kernel) (w : list spec_float) (ls : list nat) :
  forall (rp cp : list spec_float) (h : heap),
    heq h (snd (call_loop K ls w rp cp h)).
Proof.
  induction ls as [|l ls IH]; intros rp cp h; cbn [call_loop]; [apply heq_refl|].
  unfold bind at 1. pose proof (call_heq K l w h) as Hc.
  destruct (call K l w h) as [[parts|e] h1]; cbn [snd] in Hc; [|done].
  unfold bind at 1, lift. destruct (np_add rp parts.1); [|done].
  unfold bind at 1. destruct (np_add cp parts.2); [|done].
  exact (heq_trans _ _ _ Hc (IH _ _ h1)).
Qed.

Lemma param_lists_heq (h h' : heap) (ls : list nat) :
  heq h h' -> param_lists h' ls = param_lists h ls.
Proof.
  intros [El Ho]. induction ls as [|l ls IH]; cbn [param_lists]; [done|].
  specialize (Ho l). unfold same_obj_opt in Ho.
  destruct (objs h !! l) as [o|], (objs h' !! l) as [o'|]; try done.
  destruct Ho as (_ & <- & _). rewrite <- El, IH. done.
Qed.

(** After a cost function evaluation that returns, the model holds the
    parameters it was evaluated at: for parameter lists that are distinct
    objects with [n] entries in total, [getparams] returns the first [n]
    values of the vector. *)
Theorem costfun_leaves_params (K : Kernel) (m : SpectralModel)
    (dataX datarp datacp params : list spec_float) (h h2 : heap) (v : spec_float)
    (r : list (nat * list spec_float)) :
  param_lists h (lineshapes m) = Some r ->
  NoDup r.*1 ->
  fit_model_costfun K m dataX datarp datacp params h = (Ok v, h2) ->
  length (concat r.*2) <= length params /\
  getparams m h2 = (Ok (take (length (concat r.*2)) params), h2).
Proof.
  intros Hr Hnd E.
  apply fit_model_costfun_inv in E as (d & E).
  apply fit_model_diffsq_inv in E as (h1 & rc & Eset & Ecall).
  assert (Hlen : length (concat r.*2) <= length params).
  { destruct (decide (length (concat r.*2) <= length params)) as [|Hn]; [done|].
    pose proof (setparams_loop_short params (lineshapes m) h r 0 Hr ltac:(lia) ltac:(lia)) as Hs.
    unfold setparams, bind in Eset.
    destruct (setparams_loop (lineshapes m) params 0 h) as [[?|?] ?]; cbn [fst] in Hs;
      discriminate. }
  split; [done|].
  destruct (setparams_loop_spec params (lineshapes m) h r 0 Hr Hnd ltac:(lia))
    as (h' & r' & Hloop & _ & _ & Hr' & Hc).
  unfold setparams, bind in Eset. rewrite Hloop in Eset. injection Eset as <-.
  pose proof (call_loop_heq K dataX (lineshapes m) (zeros (length dataX)) (zeros (length dataX)) h')
    as Hh.
  unfold SpectralModel_call in Ecall. rewrite Ecall in Hh. cbn [snd] in Hh.
  unfold getparams. rewrite getparams_loop_spec, (param_lists_heq h' h2 _ Hh), Hr'.
  by rewrite app_nil_l, Hc, drop_0.
Qed.

(** Witness: one [Debye] lineshape, the data point (1.0, 1.0, 1.0) and the
    vector [2, 3]. *)
Lemma costfun_leaves_params_one_Debye :
  exists v h2,
    fit_model_costfun nan_kernel model_of_0 [f1] [f1] [f1] [f2; f3] one_Debye = (Ok v, h2) /\
    getparams model_of_0 h2 = (Ok [f2; f3], h2).
Proof.
  destruct (fit_model_costfun nan_kernel model_of_0 [f1] [f1] [f1] [f2; f3] one_Debye)
    as [[v|e] h2] eqn:E; [|vm_compute in E; discriminate E].
  exists v, h2. split; [reflexivity|].
  exact (proj2 (costfun_leaves_params nan_kernel model_of_0 [f1] [f1] [f1] [f2; f3]
                  one_Debye h2 v [(0, [f1; f1])] eq_refl (NoDup_singleton 0) E)).
Defined.

(** The optimizer is given [getbounds()] and evaluates the cost function
    at vectors with one entry per bound.  When the bounds of a model are
    fewer than its parameters, every such evaluation raises [IndexError]. *)
Theorem costfun_short_bounds (K : Kernel) (m : SpectralModel)
    (dataX datarp datacp x : list spec_float) (h h' : heap)
    (r : list (nat * list spec_float)) (bounds : list (spec_float * spec_float)) :
  param_lists h (lineshapes m) = Some r ->
  getbounds m h = (Ok bounds, h') ->
  length bounds < length (concat r.*2) ->
  length x = length bounds ->
  fst (fit_model_costfun K m dataX datarp datacp x h) = Raise IndexError.
Proof.
  intros Hr _ Hb Hx.
  pose proof (setparams_loop_short x (lineshapes m) h r 0 Hr ltac:(lia) ltac:(lia)) as Hs.
  unfold fit_model_costfun, fit_model_diffsq, setparams.
  unfold bind at 1. unfold bind at 1. unfold bind at 1.
  by destruct (setparams_loop (lineshapes m) x 0 h) as [[?|?] ?];
    cbn [fst] in Hs; [discriminate|injection Hs as ->].
Qed.

(** Witness: [DHO()], whose default parameters are three and whose default
    bounds are two. *)
Lemma costfun_short_bounds_DHO :
  fst (fit_model_costfun nan_kernel model_of_0 [f1] [f1] [f1] [f1; f1]
         (one_lineshape (DHO_init 0 unbounded2 "DHO") [f1; f1; f1])) = Raise IndexError.
Proof.
  apply (costfun_short_bounds nan_kernel model_of_0 [f1] [f1] [f1] [f1; f1]
           (one_lineshape (DHO_init 0 unbounded2 "DHO") [f1; f1; f1])
           (one_lineshape (DHO_init 0 unbounded2 "DHO") [f1; f1; f1])
           [(0, [f1; f1; f1])] unbounded2); try reflexivity.
  cbn. lia.
Defined.

(** Data arrays of another length than [dataX] (and neither of length
    one, which numpy would broadcast) make [diffsq] raise [ValueError] once
    the model has been evaluated. *)
Theorem diffsq_data_length_mismatch (K : Kernel) (m : SpectralModel)
    (dataX datarp datacp params rp cp : list spec_float) (h h1 h2 : heap) :
  setparams m params h = (Ok tt, h1) ->
  SpectralModel_call K m dataX h1 = (Ok (rp, cp), h2) ->
  length datarp <> length dataX ->
  length datarp <> 1 ->
  length dataX <> 1 ->
  fit_model_diffsq K m dataX datarp datacp params h = (Raise ValueError, h2).
Proof.
  intros Eset Ecall H1 H2 H3.
  destruct (SpectralModel_call_length K m dataX h1 (rp, cp) h2 Ecall) as [L1 _].
  cbn [fst] in L1.
  unfold fit_model_diffsq. unfold bind at 1. rewrite Eset.
  unfold bind at 1. rewrite Ecall. cbn [fst snd].
  unfold bind at 1, lift, np_sub, np_binop.
  destruct (decide (length datarp = length rp)); [congruence|].
  destruct datarp as [|a [|b datarp]]; [| cbn in H2; lia |].
  - destruct rp as [|c [|e rp]]; [cbn in *; congruence | cbn in L1; lia | done].
  - destruct rp as [|c [|e rp]]; [done | cbn in L1; lia | done].
Qed.

(** Witness: one [Debye] lineshape, two frequencies and three data values. *)
Lemma diffsq_data_length_mismatch_one_Debye :
  exists h2,
    fit_model_diffsq nan_kernel model_of_0 [f1; f2] [f1; f1; f1] [f1; f1; f1] [f1; f1] one_Debye =
    (Raise ValueError, h2).
Proof.
  exists one_Debye.
  apply (diffsq_data_length_mismatch nan_kernel model_of_0 [f1; f2] [f1; f1; f1] [f1; f1; f1]
           [f1; f1] (fst (Debye_value f1 f1 [f1; f2])) (snd (Debye_value f1 f1 [f1; f2]))
           one_Debye one_Debye one_Debye);
    try (vm_compute; reflexivity); cbn; lia.
Defined.

(** ** [longeps] *)

(** [longeps] applies to the values of the model the map that
    [fit_model_gLST_constraint] applies to the transverse data: when the
    model returns [(rp, cp)] on [w], [longeps] returns [Ldata(rp, cp)], that
    is [rp/(rp**2 + cp**2)] and [cp/(rp**2 + cp**2)], in the store the
    evaluation left. *)
Theorem longeps_is_Ldata (K : Kernel) (m : SpectralModel) (w rp cp : list spec_float) (h h' : heap) :
  SpectralModel_call K m w h = (Ok (rp, cp), h') ->
  exists L, Ldata rp cp = Ok L /\ longeps K m w h = (Ok L, h') /\
            length (fst L) = length w /\ length (snd L) = length w.
Proof.
  intros Ecall.
  destruct (SpectralModel_call_length K m w h (rp, cp) h' Ecall) as [L1 L2]. cbn [fst snd] in L1, L2.
  assert (Ed : np_add (map fpow2 rp) (map fpow2 cp) = Ok (zip_with fadd (map fpow2 rp) (map fpow2 cp))).
  { apply np_binop_same_length. rewrite !length_map. congruence. }
  set (den := zip_with fadd (map fpow2 rp) (map fpow2 cp)) in *.
  assert (Hden : length den = length w).
  { unfold den. rewrite length_zip_with, !length_map. lia. }
  exists (zip_with fdiv rp den, zip_with fdiv cp den).
  unfold Ldata, longeps, np_div. rewrite Ed. cbn [rbind].
  rewrite !np_binop_same_length by congruence. cbn [rbind].
  split; [done|]. split.
  - unfold bind at 1. rewrite Ecall. cbn [fst snd].
    unfold bind, lift, ret. rewrite Ed.
    by rewrite !np_binop_same_length by congruence.
  - cbn [fst snd]. rewrite !length_zip_with. lia.
Qed.

(** Witness: the model of one [Debye] lineshape [1, 1] at the frequency 1.0,
    whose value is (0.5, 0.5) and whose [longeps] is (1.0, 1.0). *)
Lemma longeps_one_Debye :
  exists L, Ldata [fhalf] [fhalf] = Ok L /\
            longeps nan_kernel model_of_0 [f1] one_Debye = (Ok L, one_Debye) /\
            length (fst L) = 1 /\ length (snd L) = 1.
Proof.
  apply (longeps_is_Ldata nan_kernel model_of_0 [f1] [fhalf] [fhalf] one_Debye one_Debye).
  vm_compute. reflexivity.
Defined.

(** ** [getfreqs] *)

Lemma param_lists_length (h : heap) (ls : list nat) :
  forall r, param_lists h ls = Some r -> length r = length ls.
Proof.
  induction ls as [|l ls IH]; intros r Hr; cbn [param_lists] in Hr.
  - by injection Hr as <-.
  - destruct (objs h !! l) as [o|]; [|done].
    destruct (lists h !! Lineshape.p o) as [xs|]; [|done].
    destruct (param_lists h ls) as [r0|]; [|done].
    injection Hr as <-. cbn [length]. by rewrite (IH r0).
Qed.

(** [p[1]] of each parameter list. *)
Definition second_params (r : list (nat * list spec_float)) : list spec_float :=
  map (fun x => default f0 (x.2 !! 1)) r.

Definition getfreqs_body (m : SpectralModel) (i : nat) (freqs : list spec_float) : M (list spec_float) :=
  o <- lineshape_at m i ;; p1 <- param o 1 ;; ret (<[i := p1]> freqs).

Lemma getfreqs_loop (m : SpectralModel) (h : heap) (rest : list nat) :
  forall (i : nat) (acc : list spec_float) (r : list (nat * list spec_float)),
    drop i (lineshapes m) = rest ->
    param_lists h rest = Some r ->
    i + length rest <= length acc ->
    (Forall (fun x => 2 <= length x.2) r ->
     for_range (getfreqs_body m) (length rest) i acc h =
     (Ok (take i acc ++ second_params r ++ drop (i + length rest) acc), h)) /\
    (Exists (fun x => length x.2 < 2) r ->
     for_range (getfreqs_body m) (length rest) i acc h = (Raise IndexError, h)).
Proof.
  induction rest as [|l rest IH]; intros i acc r Hd Hr Hacc; cbn [param_lists] in Hr.
  - injection Hr as <-. split.
    + intros _. cbn. by rewrite Nat.add_0_r, take_drop.
    + intros H. by apply Exists_nil in H.
  - destruct (objs h !! l) as [o|] eqn:Eo; [|done].
    destruct (lists h !! Lineshape.p o) as [xs|] eqn:Exs; [|done].
    destruct (param_lists h rest) as [r0|] eqn:Er0; [|done].
    injection Hr as <-. cbn [length] in *.
    assert (El : lineshapes m !! i = Some l).
    { rewrite <- (Nat.add_0_r i), <- lookup_drop, Hd. done. }
    assert (Eat : lineshape_at m i h = (Ok o, h)).
    { unfold lineshape_at, bind, lift, getitem, get_obj. by rewrite El, Eo. }
    assert (Hd' : drop (S i) (lineshapes m) = rest).
    { by rewrite <- (Nat.add_1_r i), <- drop_drop, Hd. }
    assert (Eb : getfreqs_body m i acc h =
                 match xs !! 1 with
                 | Some p1 => (Ok (<[i := p1]> acc), h)
                 | None => (Raise IndexError, h)
                 end).
    { unfold getfreqs_body. rewrite (bind_ok _ _ _ _ _ Eat), bind_param, Exs.
      by destruct (xs !! 1). }
    cbn [for_range].
    destruct (xs !! 1) as [p1|] eqn:E1;
      [rewrite (bind_ok _ _ _ _ _ Eb) | rewrite (bind_raise _ _ _ _ _ Eb)].
    + destruct (IH (S i) (<[i := p1]> acc) r0 Hd' eq_refl) as [IHok IHbad].
      { rewrite length_insert. lia. }
      split.
      * intros Hall. apply Forall_cons in Hall as [_ Hall].
        rewrite (IHok Hall). f_equal. f_equal.
        rewrite (take_S_r _ i p1) by (apply list_lookup_insert_eq; lia).
        rewrite take_insert_ge by lia.
        rewrite drop_insert_lt by lia.
        cbn [second_params map snd]. rewrite E1. cbn [default].
        rewrite <- app_assoc. cbn [app]. unfold id, second_params.
        by replace (i + S (length rest)) with (S i + length rest) by lia.
      * intros Hex. apply Exists_cons in Hex as [Hshort|Hex]; [|by apply IHbad].
        cbn [snd] in Hshort. apply lookup_lt_Some in E1. lia.
    + split.
      * intros Hall. apply Forall_cons in Hall as [Hlen _]. cbn [snd] in Hlen.
        apply lookup_ge_None_1 in E1. lia.
      * done.
Qed.

(** [getfreqs] of a model whose counter equals the number of its lineshapes
    returns [p[1]] of each lineshape, in order, when every lineshape has two
    parameters at least; when one has fewer (a [constant] has one) it
    raises [IndexError].  The store stays as it is. *)
Theorem getfreqs_spec (m : SpectralModel) (h : heap) (r : list (nat * list spec_float)) :
  numlineshapes m = length (lineshapes m) ->
  param_lists h (lineshapes m) = Some r ->
  (Forall (fun x => 2 <= length x.2) r -> getfreqs m h = (Ok (second_params r), h)) /\
  (Exists (fun x => length x.2 < 2) r -> getfreqs m h = (Raise IndexError, h)).
Proof.
  intros Hinv Hr. unfold getfreqs. rewrite Hinv.
  destruct (getfreqs_loop m h (lineshapes m) 0 (zeros (length (lineshapes m))) r
              (drop_0 _) Hr) as [Hok Hbad].
  { unfold zeros. rewrite length_replicate. lia. }
  split; [|exact Hbad].
  intros Hall. etransitivity; [exact (Hok Hall)|].
  rewrite take_0, drop_ge by (unfold zeros; rewrite length_replicate; lia).
  by rewrite app_nil_r.
Qed.

(** Witness: the model of a [Debye] and a [constant] lineshape, whose
    [getfreqs] raises. *)
Lemma getfreqs_Debye_constant :
  getfreqs two_lineshapes Debye_constant_store = (Raise IndexError, Debye_constant_store).
Proof.
  destruct (getfreqs_spec two_lineshapes Debye_constant_store [(0, [f1; f1]); (1, [f1])]
              eq_refl eq_refl) as [_ H].
  apply H. right. left. cbn. lia.
Defined.

(** ** The frequency axis of [kw.py] *)

Module KwFreqsProps.
Import KwFreqs.

Lemma fill_lookup_float (g : nat -> spec_float) (n : nat) :
  forall (xs : list spec_float) (j : nat),
    j < length xs ->
    fold_left (fun xs i => <[i - 1 := g i]> xs) (seq 1 n) xs !! j =
    if decide (j < n) then Some (g (S j)) else xs !! j.
Proof.
  assert (Hlen : forall (idxs : list nat) (xs : list spec_float),
             length (fold_left (fun xs i => <[i - 1 := g i]> xs) idxs xs) = length xs).
  { induction idxs as [|i idxs IH]; intros xs; cbn [fold_left]; [done|].
    by rewrite IH, length_insert. }
  induction n as [|n IH]; intros xs j Hj.
  - cbn. by destruct (decide (j < 0)); [lia|].
  - rewrite seq_S, fold_left_app. cbn [fold_left].
    replace (1 + n - 1) with n by lia. change (1 + n) with (S n).
    destruct (decide (j = n)) as [->|Hne].
    + rewrite list_lookup_insert_eq by (by rewrite Hlen).
      by destruct (decide (n < S n)); [|lia].
    + rewrite list_lookup_insert_ne by done. rewrite IH by done.
      destruct (decide (j < n)), (decide (j < S n)); try lia; done.
Qed.

(** [freqs_cm] has [num_points] entries; those below [num_points - 2] are
    33.44 times the block averages of [f], and the last two are 0.0, the
    values [freqs] was allocated with: the loop stops two short. *)
Theorem freqs_cm_rows (mean : list spec_float -> spec_float) (ntimesteps : nat)
    (timestep : spec_float) (nextpow2 : nat) :
  length (freqs_cm mean ntimesteps timestep nextpow2) = Kw.num_points /\
  (forall j, j < Kw.num_points - 2 ->
             freqs_cm mean ntimesteps timestep nextpow2 !! j =
             Some (fmul (float_lit 3344 100)
                     (mean (Kw.slice (f_axis ntimesteps timestep nextpow2)
                              (j * (ntimesteps / Kw.num_points))
                              (S j * (ntimesteps / Kw.num_points)))))) /\
  freqs_cm mean ntimesteps timestep nextpow2 !! (Kw.num_points - 2) = Some f0 /\
  freqs_cm mean ntimesteps timestep nextpow2 !! (Kw.num_points - 1) = Some f0.
Proof.
  unfold freqs_cm, freqs_loop.
  set (g := fun i => mean (Kw.slice (f_axis ntimesteps timestep nextpow2)
                             ((i - 1) * (ntimesteps / Kw.num_points))
                             (i * (ntimesteps / Kw.num_points)))).
  assert (Hz : length (zeros Kw.num_points) = Kw.num_points) by apply length_replicate.
  assert (Hlook : forall j, j < Kw.num_points ->
             fold_left (fun freqs i => <[i - 1 := g i]> freqs)
               (seq 1 (Kw.num_points - 1 - 1)) (zeros Kw.num_points) !! j =
             if decide (j < Kw.num_points - 1 - 1) then Some (g (S j)) else Some f0).
  { intros j Hj. rewrite (fill_lookup_float g) by (rewrite Hz; exact Hj).
    destruct (decide (j < Kw.num_points - 1 - 1)); [done|].
    by apply lookup_replicate_2. }
  split; [|split; [|split]].
  - rewrite length_map. clear Hlook.
    generalize (seq 1 (Kw.num_points - 1 - 1)). intros idxs.
    revert Hz. generalize (zeros Kw.num_points).
    induction idxs as [|i idxs IH]; intros xs Hxs; cbn [fold_left]; [done|].
    apply IH. by rewrite length_insert.
  - intros j Hj. rewrite list_lookup_fmap, Hlook by (unfold Kw.num_points in *; lia).
    destruct (decide (j < Kw.num_points - 1 - 1)); [|unfold Kw.num_points in *; lia].
    cbn [fmap option_fmap option_map]. unfold g. by replace (S j - 1) with j by lia.
  - rewrite list_lookup_fmap, Hlook by (unfold Kw.num_points; lia).
    destruct (decide (Kw.num_points - 2 < Kw.num_points - 1 - 1));
      [unfold Kw.num_points in *; lia|]. reflexivity.
  - rewrite list_lookup_fmap, Hlook by (unfold Kw.num_points; lia).
    destruct (decide (Kw.num_points - 1 < Kw.num_points - 1 - 1));
      [unfold Kw.num_points in *; lia|]. reflexivity.
Qed.

End KwFreqsProps.

(** ** [fit_model] *)

Lemma readonly_getbounds (m : SpectralModel) : readonly (getbounds m).
Proof.
  unfold getbounds. generalize (@nil (spec_float * spec_float)).
  induction (lineshapes m) as [|l ls IH]; intros acc h; cbn [getbounds_loop]; [done|].
  unfold bind, get_obj. destruct (objs h !! l); [apply IH | done].
Qed.

(** A [diffsq] that returns leaves the parameter lists where they were,
    holding the first values of the vector. *)
Lemma diffsq_params_inv (K : Kernel) (m : SpectralModel)
    (dataX datarp datacp params : list spec_float) (h h2 : heap) (d : spec_float)
    (r : list (nat * list spec_float)) :
  param_lists h (lineshapes m) = Some r ->
  NoDup r.*1 ->
  fit_model_diffsq K m dataX datarp datacp params h = (Ok d, h2) ->
  length (concat r.*2) <= length params /\
  exists r2, param_lists h2 (lineshapes m) = Some r2 /\ r2.*1 = r.*1 /\
             concat r2.*2 = take (length (concat r.*2)) params.
Proof.
  intros Hr Hnd E.
  apply fit_model_diffsq_inv in E as (h1 & rc & Eset & Ecall).
  assert (Hlen : length (concat r.*2) <= length params).
  { destruct (decide (length (concat r.*2) <= length params)) as [|Hn]; [done|].
    pose proof (setparams_loop_short params (lineshapes m) h r 0 Hr ltac:(lia) ltac:(lia)) as Hs.
    unfold setparams, bind in Eset.
    destruct (setparams_loop (lineshapes m) params 0 h) as [[?|?] ?]; cbn [fst] in Hs;
      discriminate. }
  split; [done|].
  destruct (setparams_loop_spec params (lineshapes m) h r 0 Hr Hnd ltac:(lia))
    as (h' & r' & Hloop & Hobjs & _ & Hr' & Hc).
  pose proof (setparams_loop_frame params (lineshapes m) 0 h) as (_ & _ & Hlens).
  rewrite Hloop in Hlens. cbn [snd] in Hlens.
  destruct (param_lists_lengths h h' (lineshapes m) Hobjs Hlens r Hr) as (r1 & Hr1 & _ & Hfst).
  rewrite Hr' in Hr1. injection Hr1 as <-.
  unfold setparams, bind in Eset. rewrite Hloop in Eset. injection Eset as <-.
  pose proof (call_loop_heq K dataX (lineshapes m) (zeros (length dataX)) (zeros (length dataX)) h')
    as Hh.
  unfold SpectralModel_call in Ecall. rewrite Ecall in Hh. cbn [snd] in Hh.
  exists r'. rewrite (param_lists_heq h' h2 _ Hh). by rewrite drop_0 in Hc.
Qed.

(** After a run of the optimizer that returns, the parameter lists hold
    the first values of the last vector evaluated. *)
Lemma differential_evolution_params (K : Kernel) (m : SpectralModel)
    (dataX datarp datacp : list spec_float) (evals : list (list spec_float)) :
  forall (h h2 : heap) (r : list (nat * list spec_float)),
    param_lists h (lineshapes m) = Some r ->
    NoDup r.*1 ->
    differential_evolution (fit_model_costfun K m dataX datarp datacp) evals h = (Ok tt, h2) ->
    exists r2, param_lists h2 (lineshapes m) = Some r2 /\ r2.*1 = r.*1 /\
               concat r2.*2 =
               take (length (concat r.*2)) (default (concat r.*2) (last evals)).
Proof.
  induction evals as [|x rest IH]; intros h h2 r Hr Hnd E; cbn [differential_evolution] in E.
  - injection E as <-. exists r. cbn [last default]. by rewrite take_ge.
  - apply bind_inv in E as (v & h1 & Ecost & E).
    apply fit_model_costfun_inv in Ecost as (d & Ed).
    destruct (diffsq_params_inv K m dataX datarp datacp x h h1 d r Hr Hnd Ed)
      as (Hlen & r1 & Hr1 & Hfst1 & Hc1).
    assert (Hn1 : length (concat r1.*2) = length (concat r.*2)).
    { rewrite Hc1, length_take. lia. }
    destruct (IH h1 h2 r1 Hr1 ltac:(by rewrite Hfst1) E) as (r2 & Hr2 & Hfst2 & Hc2).
    exists r2. split; [done|]. split; [congruence|].
    rewrite Hc2, Hn1. destruct rest as [|y rest'].
    + cbn [last default]. rewrite Hc1. by rewrite take_take, Nat.min_id.
    + rewrite last_cons_cons.
      destruct (last (y :: rest')) as [z|] eqn:El; [done|]. by apply last_None in El.
Qed.

(** [fit_model] leaves in the model the parameters of the last vector the
    optimizer evaluated, not those of the vector it found best: for
    parameter lists that are distinct objects with [n] entries in total, a
    [fit_model] that returns leaves [getparams()] at the first [n] values
    of the last evaluation (the parameters it started with when the
    optimizer evaluated nothing), keeps the lineshapes and the counter, and
    sets [RMS_error] to [sqrt(diffsq/(2*len(dataX)))] for [diffsq] at those
    parameters. *)
Theorem fit_model_keeps_last_evaluation (K : Kernel) (m m' : SpectralModel)
    (dataX datarp datacp : list spec_float) (evals : list (list spec_float))
    (h h' : heap) (r : list (nat * list spec_float)) :
  param_lists h (lineshapes m) = Some r ->
  NoDup r.*1 ->
  fit_model K m dataX datarp datacp evals h = (Ok m', h') ->
  getparams m h' =
    (Ok (take (length (concat r.*2)) (default (concat r.*2) (last evals))), h') /\
  lineshapes m' = lineshapes m /\
  numlineshapes m' = numlineshapes m /\
  exists d h0,
    fit_model_diffsq K m dataX datarp datacp
      (take (length (concat r.*2)) (default (concat r.*2) (last evals))) h0 = (Ok d, h') /\
    RMS_error m' = NpFloat (fsqrt (fdiv d (float_of_Z (2 * Z.of_nat (length dataX))))).
Proof.
  intros Hr Hnd E. unfold fit_model in E.
  apply bind_inv in E as (p0 & h1 & [-> _]%getparams_inv & E).
  apply bind_inv in E as (bounds & h1 & Eb & E).
  pose proof (readonly_getbounds m h) as Hb. rewrite Eb in Hb. cbn [snd] in Hb. subst h1.
  apply bind_inv in E as ([] & h2 & Erun & E).
  destruct (differential_evolution_params K m dataX datarp datacp evals h h2 r Hr Hnd Erun)
    as (r2 & Hr2 & Hfst2 & Hc2).
  apply bind_inv in E as (params & h3 & Eget & E).
  apply getparams_inv in Eget as (-> & r2' & Hr2' & ->).
  rewrite Hr2 in Hr2'. injection Hr2' as <-.
  apply bind_inv in E as (d & h4 & Ed & E). injection E as <- <-.
  destruct (diffsq_params_inv K m dataX datarp datacp (concat r2.*2) h2 h4 d r2 Hr2
              ltac:(by rewrite Hfst2) Ed) as (_ & r3 & Hr3 & _ & Hc3).
  rewrite take_ge in Hc3 by done.
  split; [|split; [done|split; [done|]]].
  - unfold getparams. by rewrite getparams_loop_spec, Hr3, app_nil_l, Hc3, Hc2.
  - exists d, h2. by rewrite <- Hc2.
Qed.

(** Witness: one [Debye] lineshape, the data point (1.0, 1.0, 1.0) and a run
    that evaluates [2, 3] and then [3, 4]. *)
Lemma fit_model_two_evaluations :
  exists m' h',
    fit_model nan_kernel model_of_0 [f1] [f1] [f1] [[f2; f3]; [f3; f4]] one_Debye = (Ok m', h') /\
    getparams model_of_0 h' = (Ok [f3; f4], h').
Proof.
  destruct (fit_model nan_kernel model_of_0 [f1] [f1] [f1] [[f2; f3]; [f3; f4]] one_Debye)
    as [[m'|e] h'] eqn:E; [|vm_compute in E; discriminate E].
  exists m', h'. split; [reflexivity|].
  exact (proj1 (fit_model_keeps_last_evaluation nan_kernel model_of_0 m' [f1] [f1] [f1]
                  [[f2; f3]; [f3; f4]] one_Debye h' [(0, [f1; f1])]
                  eq_refl (NoDup_singleton 0) E)).
Defined.

(** ** [gLST_LHS]: the value returned *)








(** ** [add] and [getparams] *)

Lemma param_lists_snoc (h : heap) (l : nat) (o : Lineshape.t) (xs : list spec_float)
    (ls : list nat) :
  objs h !! l = Some o ->
  lists h !! Lineshape.p o = Some xs ->
  forall r, param_lists h ls = Some r ->
            param_lists h (ls ++ [l]) = Some (r ++ [(Lineshape.p o, xs)]).
Proof.
  intros Eo Exs. induction ls as [|l0 ls IH]; intros r Hr; cbn [param_lists app] in *.
  - injection Hr as <-. by rewrite Eo, Exs.
  - destruct (objs h !! l0) as [o0|]; [|done].
    destruct (lists h !! Lineshape.p o0) as [xs0|]; [|done].
    destruct (param_lists h ls) as [r0|]; [|done].
    injection Hr as <-. by rewrite (IH r0 eq_refl).
Qed.

(** The parameters of a model to which a lineshape was added are the
    parameters of the model followed by those of the lineshape, also when
    the lineshape is in the model already: its parameters then come
    twice. *)
Theorem getparams_add (m : SpectralModel) (l : nat) (o : Lineshape.t)
    (ps xs : list spec_float) (h : heap) :
  getparams m h = (Ok ps, h) ->
  objs h !! l = Some o ->
  lists h !! Lineshape.p o = Some xs ->
  getparams (add m l) h = (Ok (ps ++ xs), h).
Proof.
  intros (_ & r & Hr & ->)%getparams_inv Eo Exs.
  unfold getparams, add. cbn [lineshapes].
  rewrite getparams_loop_spec, (param_lists_snoc h l o xs _ Eo Exs r Hr).
  rewrite app_nil_l, fmap_app, concat_app. cbn [fmap list_fmap concat snd].
  by rewrite app_nil_r.
Qed.

(** Witness: the [Debye] lineshape of a model added a second time. *)
Lemma getparams_add_twice :
  getparams (add model_of_0 0) one_Debye = (Ok [f1; f1; f1; f1], one_Debye).
Proof.
  exact (getparams_add model_of_0 0 _ [f1; f1] [f1; f1] one_Debye eq_refl eq_refl eq_refl).
Defined.
